(** * oras: push options, name validation and the manifest delete command

  A shallow embedding of

  - [pkg/oras/push_opts.go]: the [pushOpts] record, its option mutators,
    [ValidateNameAsPath] and the status-tracking handler;
  - [cmd/oras/root/manifest/delete.go]: [deleteCmd]'s [PreRunE]/[RunE]
    and [deleteManifest].

  Go strings are byte strings and are modelled by [string] (a list of
  8-bit [ascii]); Go maps by [gmap]; [error] values by inductive types
  whose [None]/[Some] wrapping plays the role of [nil]/non-[nil]. *)

From Stdlib Require Import String Ascii List Bool Arith Lia.
From stdpp Require Import base option list gmap strings.

Local Open Scope string_scope.
Local Open Scope list_scope.
Local Open Scope nat_scope.

(* ===================================================================== *)
(** ** The pieces of Go's [strings] package used by the sources          *)
(* ===================================================================== *)

Module GoStrings.

(** [strings.HasPrefix(s, prefix)]. *)
Definition HasPrefix (s prefix : string) : bool := String.prefix prefix s.

(** [strings.Contains(s, substr)]: [substr] starts at some offset of [s]. *)
Fixpoint Contains (s substr : string) : bool :=
  HasPrefix s substr ||
  match s with
  | EmptyString => false
  | String _ s' => Contains s' substr
  end.

(** [s[i]] for an index known to be in range; [None] is the run-time
    panic "index out of range". *)
Definition index (s : string) (i : nat) : option ascii := String.get i s.

(** [s[:n]]: [None] is the run-time panic "slice bounds out of range". *)
Definition slice_to (s : string) (n : nat) : option string :=
  if n <=? String.length s then Some (String.substring 0 n s) else None.

(** [strings.Index(s, ":")], specialised to a one-byte needle. *)
Fixpoint IndexByte (s : string) (c : ascii) : option nat :=
  match s with
  | EmptyString => None
  | String d s' => if Ascii.eqb d c then Some 0 else S <$> IndexByte s' c
  end.

(** [s[n:]] for [n <= len(s)]. *)
Definition slice_from (s : string) (n : nat) : string :=
  String.substring n (String.length s - n) s.

(** The comparison [lo <= c && c <= hi] on bytes. *)
Definition byte_between (lo c hi : ascii) : bool :=
  (nat_of_ascii lo <=? nat_of_ascii c) && (nat_of_ascii c <=? nat_of_ascii hi).

End GoStrings.

(* ===================================================================== *)
(** ** [path/filepath] on a slash-separated (non-Windows) build          *)
(* ===================================================================== *)

(** [filepath.Clean] is Go's lexical path cleaner.  The source file states
  "only unix paths are accepted"; the model is the build in which
  [filepath.Separator] is ['/'] and there are no volume names, so
  [volumeNameLen] is [0] and [ToSlash]/[FromSlash] are the identity.

  The Go function reads the bytes [path[r]] and writes into a byte
  buffer [out] whose length is the write index [w]; [dotdot] is the
  index in the buffer where a [..] element must stop backtracking. *)

Module Filepath.

Definition Separator : ascii := "/"%char.

Definition IsPathSeparator (c : ascii) : bool := Ascii.eqb c Separator.

(** On this build [ToSlash] has nothing to replace. *)
Definition ToSlash (path : string) : string := path.

Definition dot : ascii := "."%char.

(** [r+k == n || os.IsPathSeparator(path[r+k])], on the unread rest. *)
Definition ends_element (rest : list ascii) : bool :=
  match rest with
  | [] => true
  | c :: _ => IsPathSeparator c
  end.

(** The inner loop of the [..] case:
    [for out.w > dotdot && !os.IsPathSeparator(out.index(out.w)) { out.w-- }]
    run from write index [w]; the result is the final [out.w]. *)
Fixpoint backtrack (buf : list ascii) (dotdot w : nat) : nat :=
  match w with
  | 0 => 0
  | S w' =>
      if (dotdot <? w) && negb (IsPathSeparator (nth w buf "000"%char))
      then backtrack buf dotdot w'
      else w
  end.

(** [for ; r < n && !os.IsPathSeparator(path[r]); r++ { out.append(path[r]) }]:
    the copied element and the unread rest. *)
Fixpoint copy_element (rest : list ascii) : list ascii * list ascii :=
  match rest with
  | [] => ([], [])
  | c :: rest' =>
      if IsPathSeparator c then ([], rest)
      else let '(el, rest'') := copy_element rest' in (c :: el, rest'')
  end.

(** The main loop [for r < n { switch { ... } }].  Every iteration
    consumes at least one byte, so [length path] iterations are enough;
    [fuel] counts them. *)
Fixpoint clean_loop (fuel : nat) (rooted : bool)
    (rest out : list ascii) (dotdot : nat) : list ascii :=
  match fuel with
  | 0 => out
  | S fuel' =>
    match rest with
    | [] => out
    | c :: rest1 =>
      if IsPathSeparator c then
        (* empty path element *)
        clean_loop fuel' rooted rest1 out dotdot
      else if Ascii.eqb c dot && ends_element rest1 then
        (* . element *)
        clean_loop fuel' rooted rest1 out dotdot
      else if Ascii.eqb c dot &&
              match rest1 with
              | c1 :: rest2 => Ascii.eqb c1 dot && ends_element rest2
              | [] => false
              end then
        (* .. element: remove to last separator *)
        let rest2 := tl rest1 in
        if dotdot <? length out then
          (* can backtrack *)
          let w := backtrack out dotdot (length out - 1) in
          clean_loop fuel' rooted rest2 (firstn w out) dotdot
        else if negb rooted then
          (* cannot backtrack, but not rooted, so append .. element *)
          let out1 := if 0 <? length out then out ++ [Separator] else out in
          let out2 := out1 ++ [dot; dot] in
          clean_loop fuel' rooted rest2 out2 (length out2)
        else
          clean_loop fuel' rooted rest2 out dotdot
      else
        (* real path element: add slash if needed, copy element *)
        let out1 :=
          if (rooted && negb (length out =? 1)) ||
             (negb rooted && negb (length out =? 0))
          then out ++ [Separator] else out in
        let '(el, rest') := copy_element rest in
        clean_loop fuel' rooted rest' (out1 ++ el) dotdot
    end
  end.

Definition clean_bytes (path : list ascii) : list ascii :=
  match path with
  | [] => [dot]                       (* return originalPath + "." *)
  | c :: _ =>
      let rooted := IsPathSeparator c in
      let out :=
        if rooted
        then clean_loop (length path) rooted (tl path) [Separator] 1
        else clean_loop (length path) rooted path [] 0 in
      (* Turn empty string into "." *)
      if length out =? 0 then [dot] else out
  end.

Definition Clean (path : string) : string :=
  string_of_list_ascii (clean_bytes (list_ascii_of_string path)).

End Filepath.

(* ===================================================================== *)
(** ** Descriptors ([ocispec.Descriptor], [digest.Digest])               *)
(* ===================================================================== *)

Module ocispec.

(** [digest.Digest] is a Go string of the form [algorithm:encoded]. *)
Definition Digest := string.

(** The fields of [ocispec.Descriptor] that the two source files read
    or copy.  A [nil] annotation map and an empty one answer every
    lookup alike, so both are the empty [gmap]. *)
Record Descriptor := mkDescriptor {
  MediaType : string;
  Digest_ : Digest;
  Size : Z;
  Annotations : gmap string string
}.

(** [ocispec.AnnotationTitle]. *)
Definition AnnotationTitle : string := "org.opencontainers.image.title".

Inductive panic :=
| NoSeparatorInDigest        (* go-digest: no ':' separator in digest *)
| SliceBoundsOutOfRange      (* s[:n] with n > len(s) *)
| NilWriter.                 (* a method call on a nil io.Writer *)

(** [Digest.Encoded()]: the part after the first [':'];
    [sepIndex] panics when there is none. *)
Definition Encoded (d : Digest) : panic + string :=
  match GoStrings.IndexByte d ":"%char with
  | None => inl NoSeparatorInDigest
  | Some i => inr (GoStrings.slice_from d (S i))
  end.

End ocispec.

(* ===================================================================== *)
(** ** [pkg/oras/push_opts.go]                                           *)
(* ===================================================================== *)

Module oras.
Import ocispec.

(** The error variables of the package and of [orascontent], and
    [errors.Wrap(cause, message)] of [github.com/pkg/errors]. *)
Inductive error :=
| ErrNoName
| ErrDirtyPath
| ErrPathNotSlashSeparated
| ErrAbsolutePathDisallowed
| ErrPathTraversalDisallowed
| Wrap (cause : error) (message : string).

(** [errors.Cause]: the innermost wrapped error. *)
Fixpoint Cause (e : error) : error :=
  match e with
  | Wrap c _ => Cause c
  | _ => e
  end.

(** Modelled from the spec: [orascontent.ResolveName] is not part of the
    excerpt; the spec says the optional name is "resolved from the
    descriptor's annotations".  The result pair [(name, ok)] is an
    [option]: [None] is [ok = false]. *)
Definition ResolveName (desc : Descriptor) : option string :=
  Annotations desc !! AnnotationTitle.

(** An [io.Writer] is a sink identified by a number; the [nil]
    interface value is [None].  [Sinks] holds what each sink received. *)
Definition Writer := option nat.
Definition Sinks := gmap nat string.

Definition newline : string := String (ascii_of_nat 10) EmptyString.

(** The operands of [fmt.Fprintln], separated by spaces. *)
Fixpoint sprint (operands : list string) : string :=
  match operands with
  | [] => ""
  | [a] => a
  | a :: rest => a +:+ " " +:+ sprint rest
  end.

Definition sprintln (operands : list string) : string :=
  sprint operands +:+ newline.

(** [fmt.Fprintln(w, operands...)]; its result is discarded by the
    caller.  A nil writer panics. *)
Definition Fprintln (sinks : Sinks) (w : Writer) (operands : list string)
    : panic + Sinks :=
  match w with
  | None => inl NilWriter
  | Some n => inr (<[n := default "" (sinks !! n) +:+ sprintln operands]> sinks)
  end.

(** What one call of [images.Handler.Handle(ctx, desc)] does: it returns
    [(children, err)] and leaves the sinks in a new state, or panics.
    The context is not read by the handlers of this file. *)
Inductive outcome :=
| Returned (children : list Descriptor) (err : option error) (sinks : Sinks)
| Panicked (p : panic).

Definition Handler := Descriptor -> Sinks -> outcome.

(** [artifactspec.Descriptor] and [artifactspec.Manifest], with the
    fields that [AsArtifact] sets. *)
Record ArtifactDescriptor := mkArtifactDescriptor {
  aMediaType : string;
  aDigest : Digest;
  aSize : Z;
  aAnnotations : gmap string string
}.

Record ArtifactManifest := mkArtifactManifest {
  ArtifactType : string;
  Subject : ArtifactDescriptor
}.

(** Modelled from the spec: [convertV1DescriptorToV2] is not part of the
    excerpt; the spec describes it as "a pure structural projection:
    media type, digest, size, and an annotations copy". *)
Definition convertV1DescriptorToV2 (d : Descriptor) : ArtifactDescriptor :=
  {| aMediaType := MediaType d; aDigest := Digest_ d; aSize := Size d;
     aAnnotations := Annotations d |}.

Record pushOpts := mkPushOpts {
  config : option Descriptor;
  configMediaType : string;
  configAnnotations : gmap string string;
  manifest : option Descriptor;
  manifestAnnotations : gmap string string;
  manifestWriter : Writer;
  validateName : option (Descriptor -> option error);
  baseHandlers : list Handler;
  artifact : option ArtifactManifest
}.

(** [type PushOpt func(o *pushOpts) error]: the mutated record and the
    returned error. *)
Definition PushOpt := pushOpts -> pushOpts * option error.

Definition WithConfig (config' : Descriptor) : PushOpt := fun o =>
  (mkPushOpts (Some config') (configMediaType o) (configAnnotations o)
     (manifest o) (manifestAnnotations o) (manifestWriter o)
     (validateName o) (baseHandlers o) (artifact o), None).

Definition WithConfigMediaType (mediaType : string) : PushOpt := fun o =>
  (mkPushOpts (config o) mediaType (configAnnotations o)
     (manifest o) (manifestAnnotations o) (manifestWriter o)
     (validateName o) (baseHandlers o) (artifact o), None).

Definition WithConfigAnnotations (annotations : gmap string string) : PushOpt :=
  fun o =>
  (mkPushOpts (config o) (configMediaType o) annotations
     (manifest o) (manifestAnnotations o) (manifestWriter o)
     (validateName o) (baseHandlers o) (artifact o), None).

Definition WithManifest (manifest' : Descriptor) : PushOpt := fun o =>
  (mkPushOpts (config o) (configMediaType o) (configAnnotations o)
     (Some manifest') (manifestAnnotations o) (manifestWriter o)
     (validateName o) (baseHandlers o) (artifact o), None).

Definition WithManifestAnnotations (annotations : gmap string string) : PushOpt :=
  fun o =>
  (mkPushOpts (config o) (configMediaType o) (configAnnotations o)
     (manifest o) annotations (manifestWriter o)
     (validateName o) (baseHandlers o) (artifact o), None).

Definition WithManifestWriter (writer : Writer) : PushOpt := fun o =>
  (mkPushOpts (config o) (configMediaType o) (configAnnotations o)
     (manifest o) (manifestAnnotations o) writer
     (validateName o) (baseHandlers o) (artifact o), None).

Definition WithNameValidation (validate : option (Descriptor -> option error))
    : PushOpt := fun o =>
  (mkPushOpts (config o) (configMediaType o) (configAnnotations o)
     (manifest o) (manifestAnnotations o) (manifestWriter o)
     validate (baseHandlers o) (artifact o), None).

(** The drive-letter test of the absolute-path rule, under its guard
    [len(path) > 2]. *)
Definition has_drive_prefix (path : string) : bool :=
  (2 <? String.length path) &&
  match GoStrings.index path 0, GoStrings.index path 1, GoStrings.index path 2 with
  | Some c, Some c1, Some c2 =>
      Ascii.eqb c1 ":"%char && Ascii.eqb c2 "/"%char &&
      (GoStrings.byte_between "a"%char c "z"%char ||
       GoStrings.byte_between "A"%char c "Z"%char)
  | _, _, _ => false
  end.

Definition ValidateNameAsPath (desc : Descriptor) : option error :=
  match ResolveName desc with
  | None => Some ErrNoName
  | Some path =>
    (* no empty name *)
    if String.eqb path "" then Some ErrNoName
    (* path should be clean *)
    else if negb (String.eqb (Filepath.ToSlash (Filepath.Clean path)) path)
    then Some (Wrap ErrDirtyPath path)
    (* path should be slash-separated *)
    else if GoStrings.Contains path "\"
    then Some (Wrap ErrPathNotSlashSeparated path)
    (* disallow absolute path: covers unix and windows format *)
    else if GoStrings.HasPrefix path "/"
    then Some (Wrap ErrAbsolutePathDisallowed path)
    else if has_drive_prefix path
    then Some (Wrap ErrAbsolutePathDisallowed path)
    (* disallow path traversal *)
    else if GoStrings.HasPrefix path "../" || String.eqb path ".."
    then Some (Wrap ErrPathTraversalDisallowed path)
    else None
  end.

Definition pushOptsDefaults : pushOpts :=
  mkPushOpts None "" ∅ None ∅ None (Some ValidateNameAsPath) [] None.

Definition WithPushBaseHandler (handlers : list Handler) : PushOpt := fun o =>
  (mkPushOpts (config o) (configMediaType o) (configAnnotations o)
     (manifest o) (manifestAnnotations o) (manifestWriter o)
     (validateName o) (baseHandlers o ++ handlers) (artifact o), None).

(** The closure returned by [pushStatusTrack(writer)].  The arguments of
    [Fprintln] are evaluated before the call; the mutex only orders
    concurrent calls and has no effect on one call. *)
Definition pushStatusTrack (writer : Writer) : Handler := fun desc sinks =>
  match ResolveName desc with
  | Some name =>
      match Encoded (Digest_ desc) with
      | inl p => Panicked p
      | inr encoded =>
          match GoStrings.slice_to encoded 12 with
          | None => Panicked SliceBoundsOutOfRange
          | Some short =>
              match Fprintln sinks writer ["Uploading"; short; name] with
              | inl p => Panicked p
              | inr sinks' => Returned [] None sinks'
              end
          end
      end
  | None => Returned [] None sinks
  end.

Definition WithPushStatusTrack (writer : Writer) : PushOpt :=
  WithPushBaseHandler [pushStatusTrack writer].

Definition AsArtifact (artifactType : string) (manifest' : Descriptor) : PushOpt :=
  fun o =>
  (mkPushOpts (config o) (configMediaType o) (configAnnotations o)
     (manifest o) (manifestAnnotations o) (manifestWriter o)
     (validateName o) (baseHandlers o)
     (Some {| ArtifactType := artifactType;
              Subject := convertV1DescriptorToV2 manifest' |}), None).

(** Modelled from the spec: the loop that applies the options is not part
    of the excerpt; the spec says the mutators "are applied strictly in
    the order supplied by the caller, and the builder aborts on the first
    mutator error (fail-fast, no rollback of prior mutations)". *)
Fixpoint applyOpts (opts : list PushOpt) (o : pushOpts) : pushOpts * option error :=
  match opts with
  | [] => (o, None)
  | opt :: rest =>
      match opt o with
      | (o', Some err) => (o', Some err)       (* abort on the first error *)
      | (o', None) => applyOpts rest o'
      end
  end.

(** The option constructors defined in [push_opts.go]. *)
Inductive distinguished : PushOpt -> Prop :=
| d_WithConfig c : distinguished (WithConfig c)
| d_WithConfigMediaType m : distinguished (WithConfigMediaType m)
| d_WithConfigAnnotations a : distinguished (WithConfigAnnotations a)
| d_WithManifest m : distinguished (WithManifest m)
| d_WithManifestAnnotations a : distinguished (WithManifestAnnotations a)
| d_WithManifestWriter w : distinguished (WithManifestWriter w)
| d_WithNameValidation v : distinguished (WithNameValidation v)
| d_WithPushBaseHandler hs : distinguished (WithPushBaseHandler hs)
| d_WithPushStatusTrack w : distinguished (WithPushStatusTrack w)
| d_AsArtifact t m : distinguished (AsArtifact t m).

End oras.

(* ===================================================================== *)
(** ** [cmd/oras/root/manifest/delete.go]                                *)
(* ===================================================================== *)

Module manifest.
Import ocispec.

(** Go [error] values as this command builds and inspects them. *)
Inductive error :=
| ErrNotFound                                  (* errdef.ErrNotFound *)
| errorString (msg : string)                   (* errors.New, fmt.Errorf without %w *)
| wrapError (msg : string) (cause : error).    (* fmt.Errorf with %w *)

#[global] Instance error_eq_dec : EqDecision error.
Proof. solve_decision. Defined.

(** [err.Error()]. *)
Definition Error (e : error) : string :=
  match e with
  | ErrNotFound => "not found"
  | errorString msg => msg
  | wrapError msg _ => msg
  end.

(** [errors.Is(err, target)]: [target] is [err] or is in its [Unwrap] chain. *)
Fixpoint Is (err target : error) : bool :=
  bool_decide (err = target) ||
  match err with
  | wrapError _ cause => Is cause target
  | _ => false
  end.

Inductive result (A : Type) :=
| Ok (a : A)
| Err (e : error).
Arguments Ok {A} a.
Arguments Err {A} e.

(** [registry.Reference] and the one field of [remote.Repository] read here. *)
Record registry_Reference := mkReference {
  Registry : string;
  Repository : string;
  Reference : string
}.

Record remote_Repository := mkRepository {
  Repo_Reference : registry_Reference
}.

(** [auth.ActionPull], [auth.ActionPush], [auth.ActionDelete]. *)
Definition ActionPull : string := "pull".
Definition ActionPush : string := "push".
Definition ActionDelete : string := "delete".

(** A registered scope hint, and the operation context as far as this
    command is concerned: the hints registered on it. *)
Record ScopeHint := mkScopeHint {
  hint_repo : remote_Repository;
  hint_actions : list string
}.

Definition Context := list ScopeHint.

(** Insertion into an ordered set: a member is not added again. *)
Definition add_action (acc : list string) (a : string) : list string :=
  if bool_decide (a ∈ acc) then acc else acc ++ [a].

(** Modelled from the spec: [registryutil.WithScopeHint] is not part of
    the excerpt; the spec gives it as [registerScopeHints(ctx,
    repositoryIdentity, actions) -> ctx'] where a scope hint is an
    "ordered set of AuthAction, deduplicated". *)
Definition WithScopeHint (repo : remote_Repository) (ctx : Context)
    (actions : list string) : Context :=
  ctx ++ [mkScopeHint repo (fold_left add_action actions [])].

Record deleteOptions := mkDeleteOptions {
  Force : bool;                     (* option.Confirmation *)
  OutputDescriptor : bool;          (* option.Descriptor *)
  Pretty : bool;                    (* option.Pretty *)
  ReferrersAPI : option bool;       (* option.Remote, a *bool *)
  targetRef : string
}.

Definition with_targetRef (opts : deleteOptions) (ref : string) : deleteOptions :=
  mkDeleteOptions (Force opts) (OutputDescriptor opts) (Pretty opts)
    (ReferrersAPI opts) ref.

(** The collaborators that are outside this file: the methods of the
    embedded option structs, the manifest store of the repository, and
    [oerrors.NewErrInvalidReference].  Each is called at most once in one
    run, so a function of its arguments describes any behaviour. *)
Record Env := mkEnv {
  Parse : deleteOptions -> deleteOptions * option error;
  NewRepository : deleteOptions -> result remote_Repository;
  NewErrInvalidReference : registry_Reference -> error;
  Resolve : Context -> string -> result Descriptor;
  AskForConfirmation : deleteOptions -> string -> result bool;
  Delete : Context -> Descriptor -> option error;
  Marshal : deleteOptions -> Descriptor -> result string;
  Output : deleteOptions -> string -> option error;
  Quote : string -> string                     (* the %q verb *)
}.

(** What a run does to the outside, in order. *)
Inductive event :=
| EvResolve (ctx : Context) (ref : string)     (* manifests.Resolve *)
| EvAsk (prompt : string)                      (* AskForConfirmation on os.Stdin *)
| EvDelete (ctx : Context) (desc : Descriptor) (* manifests.Delete *)
| EvPrintln (line : string)                    (* fmt.Println *)
| EvOutput (bytes : string).                   (* opts.Output on os.Stdout *)

(** Computations that log events. *)
Definition Run (A : Type) := list event -> A * list event.

Definition ret {A} (a : A) : Run A := fun t => (a, t).
Definition bind {A B} (m : Run A) (k : A -> Run B) : Run B :=
  fun t => let '(a, t') := m t in k a t'.
Definition emit (e : event) : Run unit := fun t => (tt, t ++ [e]).

Notation "x <- m ;; k" := (bind m (fun x => k))
  (at level 100, m at next level, right associativity).
Notation "m ;;; k" := (bind m (fun _ => k))
  (at level 100, right associativity).

Definition call_Resolve (env : Env) (ctx : Context) (ref : string)
    : Run (result Descriptor) :=
  emit (EvResolve ctx ref) ;;; ret (Resolve env ctx ref).

Definition call_AskForConfirmation (env : Env) (opts : deleteOptions)
    (prompt : string) : Run (result bool) :=
  emit (EvAsk prompt) ;;; ret (AskForConfirmation env opts prompt).

Definition call_Delete (env : Env) (ctx : Context) (desc : Descriptor)
    : Run (option error) :=
  emit (EvDelete ctx desc) ;;; ret (Delete env ctx desc).

Definition call_Output (env : Env) (opts : deleteOptions) (bytes : string)
    : Run (option error) :=
  emit (EvOutput bytes) ;;; ret (Output env opts bytes).

(** [fmt.Println(a, b)] prints the operands separated by a space; the
    event holds the line without its final newline. *)
Definition Println (a b : string) : Run unit :=
  emit (EvPrintln (a +:+ " " +:+ b)).

(** The scope hints that [deleteManifest] passes to [WithScopeHint]. *)
Definition hints (opts : deleteOptions) : list string :=
  let hints := [ActionPull; ActionPush; ActionDelete] in
  if match ReferrersAPI opts with
     | None => true                (* opts.ReferrersAPI == nil *)
     | Some b => negb b            (* !*opts.ReferrersAPI *)
     end
  then hints ++ [ActionPush]       (* possibly need pushing to add a new referrers index *)
  else hints.

(** [opts.WithContext] attaches a logger, which is not modelled; the
    hints on the context are unchanged by it. *)
Definition deleteManifest (env : Env) (ctx : Context) (opts : deleteOptions)
    : Run (option error) :=
  match NewRepository env opts with
  | Err err => ret (Some err)
  | Ok repo =>
    if String.eqb (Reference (Repo_Reference repo)) ""
    then ret (Some (NewErrInvalidReference env (Repo_Reference repo)))
    else
      let ctx := WithScopeHint repo ctx (hints opts) in
      r <- call_Resolve env ctx (targetRef opts) ;;
      match r with
      | Err err =>
          if Is err ErrNotFound then
            if Force opts && negb (OutputDescriptor opts) then
              (* ignore nonexistent *)
              Println "Missing" (targetRef opts) ;;; ret None
            else
              ret (Some (errorString
                (targetRef opts +:+ ": the specified manifest does not exist")))
          else ret (Some err)
      | Ok desc =>
          let prompt :=
            "Are you sure you want to delete the manifest " +:+
            Quote env (Digest_ desc) +:+
            " and all tags associated with it?" in
          a <- call_AskForConfirmation env opts prompt ;;
          match a with
          | Err err => ret (Some err)
          | Ok confirmed =>
              if negb confirmed then ret None
              else
                d <- call_Delete env ctx desc ;;
                match d with
                | Some err =>
                    ret (Some (wrapError
                      ("failed to delete " +:+ targetRef opts +:+ ": " +:+ Error err)
                      err))
                | None =>
                    if OutputDescriptor opts then
                      match Marshal env opts desc with
                      | Err err => ret (Some err)
                      | Ok descJSON => call_Output env opts descJSON
                      end
                    else
                      Println "Deleted" (targetRef opts) ;;; ret None
                end
          end
      end
  end.

(** [deleteCmd]'s [PreRunE]; [option.Parse(&opts)] may update [opts]. *)
Definition PreRunE (env : Env) (opts : deleteOptions)
    : deleteOptions * option error :=
  if OutputDescriptor opts && negb (Force opts)
  then (opts, Some (errorString
    "must apply --force to confirm the deletion if the descriptor is outputted"))
  else Parse env opts.

(** [deleteCmd]'s [RunE]; [args] has passed [cobra.ExactArgs(1)]. *)
Definition RunE (env : Env) (ctx : Context) (opts : deleteOptions)
    (arg0 : string) : Run (option error) :=
  deleteManifest env ctx (with_targetRef opts arg0).

(** How cobra runs the command: the [Args] check, then [PreRunE], then
    [RunE] unless an earlier step failed.  The text of cobra's argument
    error is abridged. *)
Definition execute (env : Env) (ctx : Context) (opts : deleteOptions)
    (args : list string) : Run (option error) :=
  match args with
  | [arg0] =>
      match PreRunE env opts with
      | (_, Some err) => ret (Some err)
      | (opts', None) => RunE env ctx opts' arg0
      end
  | _ => ret (Some (errorString "accepts 1 arg(s)"))
  end.

(** A run starts with nothing done. *)
Definition run {A} (m : Run A) : A * list event := m [].

Definition is_Delete (e : event) : bool :=
  match e with EvDelete _ _ => true | _ => false end.

Definition is_Resolve (e : event) : bool :=
  match e with EvResolve _ _ => true | _ => false end.

(** The resolve call of a run is reached and returns [r]: the repository
    is built, its reference component is not empty, and the store answers
    [r] to the call that [deleteManifest] makes. *)
Definition resolve_returns (env : Env) (ctx : Context) (opts : deleteOptions)
    (r : result Descriptor) : Prop :=
  exists repo,
    NewRepository env opts = Ok repo /\
    Reference (Repo_Reference repo) <> "" /\
    Resolve env (WithScopeHint repo ctx (hints opts)) (targetRef opts) = r.

(** The prompt shown for a resolved descriptor. *)
Definition prompt_for (env : Env) (desc : Descriptor) : string :=
  "Are you sure you want to delete the manifest " +:+
  Quote env (Digest_ desc) +:+ " and all tags associated with it?".

End manifest.

(* ===================================================================== *)
(** ** Sample inputs                                                     *)
(* ===================================================================== *)

Module Samples.
Import ocispec manifest.

Definition sample_digest : Digest :=
  "sha256:99e4703fbf30916f549cd6bfa9cdbab614b5392fbe64fdee971359a77073cdf9".

(** A descriptor whose title annotation is [name]. *)
Definition named (name : string) (d : Digest) : Descriptor :=
  mkDescriptor "application/vnd.oci.image.layer.v1.tar" d 42
    {[ AnnotationTitle := name ]}.

Definition unnamed (d : Digest) : Descriptor :=
  mkDescriptor "application/vnd.oci.image.layer.v1.tar" d 42 ∅.

Definition hello_v1 : remote_Repository :=
  mkRepository (mkReference "localhost:5000" "hello" "v1").

Definition hello_bare : remote_Repository :=
  mkRepository (mkReference "localhost:5000" "hello" "").

(** A registry in which the reference resolves, the confirmation is the
    force flag, and every later step succeeds. *)
Definition env_present : Env :=
  mkEnv (fun o => (o, None))
        (fun _ => Ok hello_v1)
        (fun _ => errorString "invalid reference")
        (fun _ _ => Ok (unnamed sample_digest))
        (fun o _ => Ok (Force o))
        (fun _ _ => None)
        (fun _ _ => Ok "{json}")
        (fun _ _ => None)
        (fun s => s).

(** The same registry without the manifest: resolve wraps [ErrNotFound]. *)
Definition env_absent : Env :=
  mkEnv (fun o => (o, None))
        (fun _ => Ok hello_v1)
        (fun _ => errorString "invalid reference")
        (fun _ _ => Err (wrapError "localhost:5000/hello:v1: not found" ErrNotFound))
        (fun o _ => Ok (Force o))
        (fun _ _ => None)
        (fun _ _ => Ok "{json}")
        (fun _ _ => None)
        (fun s => s).

(** A registry that cannot be reached. *)
Definition env_unreachable : Env :=
  mkEnv (fun o => (o, None))
        (fun _ => Ok hello_v1)
        (fun _ => errorString "invalid reference")
        (fun _ _ => Err (errorString "connection refused"))
        (fun o _ => Ok (Force o))
        (fun _ _ => None)
        (fun _ _ => Ok "{json}")
        (fun _ _ => None)
        (fun s => s).

(** A target without tag or digest. *)
Definition env_bare : Env :=
  mkEnv (fun o => (o, None))
        (fun _ => Ok hello_bare)
        (fun _ => errorString "invalid reference")
        (fun _ _ => Ok (unnamed sample_digest))
        (fun o _ => Ok (Force o))
        (fun _ _ => None)
        (fun _ _ => Ok "{json}")
        (fun _ _ => None)
        (fun s => s).

Definition flags (force descriptor : bool) (referrers : option bool)
    : deleteOptions :=
  mkDeleteOptions force descriptor false referrers "localhost:5000/hello:v1".

(** One option of each kind, in the order of the file. *)
Definition one_of_each : list oras.PushOpt :=
  [oras.WithConfig (unnamed sample_digest);
   oras.WithConfigMediaType "application/vnd.unknown.config.v1+json";
   oras.WithConfigAnnotations ∅;
   oras.WithManifest (unnamed sample_digest);
   oras.WithManifestAnnotations ∅;
   oras.WithManifestWriter (Some 0);
   oras.WithNameValidation None;
   oras.WithPushBaseHandler [];
   oras.WithPushStatusTrack (Some 1);
   oras.AsArtifact "sbom" (unnamed sample_digest)].

(** Variations of [env_present] in which one later step fails. *)
Definition env_marshal_fails : Env :=
  mkEnv (fun o => (o, None))
        (fun _ => Ok hello_v1)
        (fun _ => errorString "invalid reference")
        (fun _ _ => Ok (unnamed sample_digest))
        (fun o _ => Ok (Force o))
        (fun _ _ => None)
        (fun _ _ => Err (errorString "json: unsupported value"))
        (fun _ _ => None)
        (fun s => s).

Definition env_delete_fails : Env :=
  mkEnv (fun o => (o, None))
        (fun _ => Ok hello_v1)
        (fun _ => errorString "invalid reference")
        (fun _ _ => Ok (unnamed sample_digest))
        (fun o _ => Ok (Force o))
        (fun _ _ => Some (wrapError "DELETE: not found" ErrNotFound))
        (fun _ _ => Ok "{json}")
        (fun _ _ => None)
        (fun s => s).

Definition env_prompt_fails : Env :=
  mkEnv (fun o => (o, None))
        (fun _ => Ok hello_v1)
        (fun _ => errorString "invalid reference")
        (fun _ _ => Ok (unnamed sample_digest))
        (fun _ _ => Err (errorString "EOF"))
        (fun _ _ => None)
        (fun _ _ => Ok "{json}")
        (fun _ _ => None)
        (fun s => s).

Definition env_no_repository : Env :=
  mkEnv (fun o => (o, None))
        (fun _ => Err (errorString "invalid reference: missing repository"))
        (fun _ => errorString "invalid reference")
        (fun _ _ => Ok (unnamed sample_digest))
        (fun o _ => Ok (Force o))
        (fun _ _ => None)
        (fun _ _ => Ok "{json}")
        (fun _ _ => None)
        (fun s => s).

Definition env_parse_fails : Env :=
  mkEnv (fun o => (o, Some (errorString "password from stdin: EOF")))
        (fun _ => Ok hello_v1)
        (fun _ => errorString "invalid reference")
        (fun _ _ => Ok (unnamed sample_digest))
        (fun o _ => Ok (Force o))
        (fun _ _ => None)
        (fun _ _ => Ok "{json}")
        (fun _ _ => None)
        (fun s => s).

End Samples.

(* ===================================================================== *)
(** ** Vocabulary of the statements                                      *)
(* ===================================================================== *)

Section Vocabulary.
Import Filepath ocispec oras manifest.

(** No event of the trace is a call of [ManifestStore.Delete]. *)
Definition never_deletes (t : list event) : Prop :=
  forall c d, ~ In (EvDelete c d) t.

(** Path elements as byte lists: [join] puts one separator between them. *)
Fixpoint join (els : list (list ascii)) : list ascii :=
  match els with
  | [] => []
  | [el] => el
  | el :: rest => el ++ Separator :: join rest
  end.

Definition sepfree (el : list ascii) : Prop :=
  Forall (fun c => IsPathSeparator c = false) el.

(** A real path element: not empty, no separator inside, neither [.] nor [..]. *)
Definition plain (el : list ascii) : Prop :=
  el <> [] /\ sepfree el /\ el <> [dot] /\ el <> [dot; dot].

Definition dotdot_el : list ascii := [dot; dot].

(** The buffer after a real element is appended to it. *)
Definition push_element (out el : list ascii) : list ascii :=
  (if length out =? 0 then out else out ++ [Separator]) ++ el.

(** The invariants stated in the Go source, for a relative path: the
    buffer is a run of [..] elements followed by real elements, and
    [dotdot] is the length of that run as written in the buffer. *)
Definition canon (out : list ascii) (dotdot : nat) : Prop :=
  exists k els,
    Forall plain els /\
    out = join (repeat dotdot_el k ++ els) /\
    dotdot = length (join (repeat dotdot_el k)).

(** The cleaned form differs from the name. *)
Definition dirty (p : string) : Prop := Filepath.Clean p <> p.

(** The name contains a backslash. *)
Definition has_backslash (p : string) : Prop :=
  In "\"%char (list_ascii_of_string p).

Definition is_letter (c : ascii) : Prop :=
  97 <= nat_of_ascii c <= 122 \/ 65 <= nat_of_ascii c <= 90.

(** The name starts with a slash. *)
Definition posix_absolute (p : string) : Prop := exists rest, p = "/" +:+ rest.

(** The name starts with a drive letter, a colon and a slash. *)
Definition drive_absolute (p : string) : Prop :=
  exists c rest, is_letter c /\ p = String c (":/" +:+ rest).

(** The name is [..] or starts with [../]. *)
Definition traversal (p : string) : Prop :=
  p = ".." \/ exists rest, p = "../" +:+ rest.

(** A path element that names something: not empty, not [.] or [..], and
    without slash or backslash. *)
Definition plain_element (s : string) : Prop :=
  s <> "" /\ s <> "." /\ s <> ".." /\
  forall c, In c (list_ascii_of_string s) -> c <> "/"%char /\ c <> "\"%char.

(** A well-formed relative slash path: one or more such elements with one
    slash between neighbours, not in drive-letter form. *)
Definition well_formed_relative (p : string) : Prop :=
  exists els,
    els <> [] /\ Forall plain_element els /\
    p = String.concat "/" els /\ ~ drive_absolute p.

(** The verdict on a looked-up name: each rule applies only to names that
    passed the rules before it. *)
Inductive verdict : option string -> option oras.error -> Prop :=
| v_missing :
    verdict None (Some ErrNoName)
| v_empty :
    verdict (Some "") (Some ErrNoName)
| v_dirty p :
    p <> "" -> dirty p ->
    verdict (Some p) (Some (Wrap ErrDirtyPath p))
| v_backslash p :
    p <> "" -> ~ dirty p -> has_backslash p ->
    verdict (Some p) (Some (Wrap ErrPathNotSlashSeparated p))
| v_absolute p :
    p <> "" -> ~ dirty p -> ~ has_backslash p ->
    posix_absolute p \/ drive_absolute p ->
    verdict (Some p) (Some (Wrap ErrAbsolutePathDisallowed p))
| v_traversal p :
    p <> "" -> ~ dirty p -> ~ has_backslash p ->
    ~ posix_absolute p -> ~ drive_absolute p -> traversal p ->
    verdict (Some p) (Some (Wrap ErrPathTraversalDisallowed p))
| v_accepted p :
    p <> "" -> ~ dirty p -> ~ has_backslash p ->
    ~ posix_absolute p -> ~ drive_absolute p -> ~ traversal p ->
    verdict (Some p) None.

(** The context on which [deleteManifest] calls the store: the hints of
    the run registered for the repository. *)
Definition store_context (repo : remote_Repository) (ctx : Context)
    (opts : deleteOptions) : Context :=
  WithScopeHint repo ctx (hints opts).

(** The run gets as far as the store: the repository is built and its
    reference component is not empty. *)
Definition reaches_store (env : Env) (opts : deleteOptions)
    (repo : remote_Repository) : Prop :=
  NewRepository env opts = Ok repo /\ Reference (Repo_Reference repo) <> "".

(** The configuration after the options are applied one after the other,
    errors aside. *)
Definition apply_all (opts : list PushOpt) (o : pushOpts) : pushOpts :=
  fold_left (fun acc opt => fst (opt acc)) opts o.

(** A returned outcome, as opposed to a panic. *)
Definition returns (r : outcome) : Prop :=
  match r with Returned _ _ _ => True | Panicked _ => False end.

(** The options of the file other than [WithNameValidation]. *)
Inductive leaves_validator : PushOpt -> Prop :=
| lv_WithConfig c : leaves_validator (WithConfig c)
| lv_WithConfigMediaType m : leaves_validator (WithConfigMediaType m)
| lv_WithConfigAnnotations a : leaves_validator (WithConfigAnnotations a)
| lv_WithManifest m : leaves_validator (WithManifest m)
| lv_WithManifestAnnotations a : leaves_validator (WithManifestAnnotations a)
| lv_WithManifestWriter w : leaves_validator (WithManifestWriter w)
| lv_WithPushBaseHandler hs : leaves_validator (WithPushBaseHandler hs)
| lv_WithPushStatusTrack w : leaves_validator (WithPushStatusTrack w)
| lv_AsArtifact t m : leaves_validator (AsArtifact t m).

(** The number of events of a kind in a trace. *)
Definition count_events (kind : event -> bool) (t : list event) : nat :=
  length (filter (fun e => Is_true (kind e)) t).

Definition is_Ask (e : event) : bool :=
  match e with EvAsk _ => true | _ => false end.

Definition is_report (e : event) : bool :=
  match e with EvPrintln _ | EvOutput _ => true | _ => false end.

End Vocabulary.

(* ===================================================================== *)
(** ** Facts about the string helpers                                    *)
(* ===================================================================== *)

Section StringFacts.

Lemma append_cons (c : ascii) (a b : string) :
  String c a +:+ b = String c (a +:+ b).
Proof. reflexivity. Qed.

Lemma append_empty_l (b : string) : "" +:+ b = b.
Proof. reflexivity. Qed.

Lemma append_assoc (a b c : string) : (a +:+ b) +:+ c = a +:+ (b +:+ c).
Proof.
  induction a as [|x a IH]; [reflexivity|].
  rewrite !append_cons. by rewrite IH.
Qed.

Lemma prefix_append (p rest : string) : String.prefix p (p +:+ rest) = true.
Proof.
  induction p as [|c p IH].
  - rewrite append_empty_l. by destruct rest.
  - rewrite append_cons. simpl.
    destruct (ascii_dec c c) as [_|ne]; [exact IH | by destruct ne].
Qed.

Lemma Contains_here (sub post : string) :
  GoStrings.Contains (sub +:+ post) sub = true.
Proof.
  assert (H : GoStrings.HasPrefix (sub +:+ post) sub = true)
    by apply prefix_append.
  destruct (sub +:+ post); cbn [GoStrings.Contains]; by rewrite H.
Qed.

(** [strings.Contains] finds a substring wherever it starts. *)
Lemma Contains_middle (pre sub post : string) :
  GoStrings.Contains (pre +:+ sub +:+ post) sub = true.
Proof.
  induction pre as [|c pre IH].
  - rewrite append_empty_l. apply Contains_here.
  - rewrite append_cons. cbn [GoStrings.Contains]. rewrite IH. apply orb_true_r.
Qed.

End StringFacts.

(* ===================================================================== *)
(** ** The manifest delete command                                       *)
(* ===================================================================== *)

Section DeleteFacts.
Import ocispec manifest.

Ltac step_delete :=
  unfold run, execute, RunE, deleteManifest, call_Resolve,
    call_AskForConfirmation, call_Delete, call_Output, Println,
    bind, emit, ret; simpl.

Lemma nonempty_eqb (s : string) : s <> "" -> String.eqb s "" = false.
Proof. intros H. by apply String.eqb_neq. Qed.

(** What the hint registration stores for the two lists the command can
    pass. *)
Lemma registered_actions (opts : deleteOptions) :
  fold_left add_action (hints opts) [] = [ActionPull; ActionPush; ActionDelete].
Proof. unfold hints. destruct (ReferrersAPI opts) as [[|]|]; reflexivity. Qed.

(** Every run is one of: no event at all, or a resolve call first, made
    on the context extended by the registered hints, and no second
    resolve call. *)
Lemma trace_shape (env : Env) (ctx : Context) (opts : deleteOptions) :
  snd (run (deleteManifest env ctx opts)) = [] \/
  exists repo rest,
    NewRepository env opts = Ok repo /\
    snd (run (deleteManifest env ctx opts)) =
      EvResolve (WithScopeHint repo ctx (hints opts)) (targetRef opts) :: rest /\
    forallb (fun e => negb (is_Resolve e)) rest = true.
Proof.
  step_delete.
  destruct (NewRepository env opts) as [repo|e]; [|by left].
  destruct (String.eqb _ _); [by left|].
  right. exists repo.
  destruct (Resolve env _ _) as [desc|e]; simpl.
  - destruct (AskForConfirmation env opts _) as [[|]|e]; simpl;
      [|by eexists..].
    destruct (Delete env _ desc); simpl; [by eexists|].
    destruct (OutputDescriptor opts); simpl; [|by eexists].
    destruct (Marshal env opts desc); simpl; by eexists.
  - destruct (Is e ErrNotFound); [|by eexists].
    destruct (Force opts && negb (OutputDescriptor opts)); simpl; by eexists.
Qed.

(** C1, as stated, fails: with force and descriptor output both set,
    [PreRunE] reports no error and the run goes on to resolve, confirm,
    delete and print the descriptor. *)
Lemma force_with_descriptor_is_accepted :
  let opts := Samples.flags true true None in
  Force opts = true /\ OutputDescriptor opts = true /\
  snd (PreRunE Samples.env_present opts) = None /\
  exists c p d,
    run (execute Samples.env_present [] opts ["localhost:5000/hello:v1"]) =
      (None, [EvResolve c "localhost:5000/hello:v1"; EvAsk p;
              EvDelete c d; EvOutput "{json}"]).
Proof. repeat split. do 3 eexists. vm_compute. reflexivity. Qed.

(** C1, amended: descriptor output WITHOUT force is what [PreRunE]
    rejects, before [option.Parse] and before anything is sent to the
    registry or printed; the command then ends with an error and an empty
    event trace. *)
Theorem descriptor_without_force_is_rejected
    (env : Env) (ctx : Context) (opts : deleteOptions) (args : list string) :
  OutputDescriptor opts = true -> Force opts = false ->
  PreRunE env opts =
    (opts, Some (errorString
       "must apply --force to confirm the deletion if the descriptor is outputted")) /\
  exists e, run (execute env ctx opts args) = (Some e, []).
Proof.
  intros Hd Hf.
  assert (HP : PreRunE env opts =
    (opts, Some (errorString
       "must apply --force to confirm the deletion if the descriptor is outputted"))).
  { unfold PreRunE. by rewrite Hd, Hf. }
  split; [exact HP|].
  unfold run, execute. rewrite HP.
  destruct args as [|a [|b args]]; by eexists.
Qed.

Lemma descriptor_without_force_is_rejected_witness :
  exists e,
    run (execute Samples.env_present [] (Samples.flags false true None)
           ["localhost:5000/hello:v1"]) = (Some e, []).
Proof.
  exact (proj2 (descriptor_without_force_is_rejected Samples.env_present []
                  (Samples.flags false true None) ["localhost:5000/hello:v1"]
                  eq_refl eq_refl)).
Defined.

(** C2: with the referrers capability unknown ([nil]) or known to be
    unsupported ([false]), the list handed to the registration names Push
    twice, and any resolve call of the run is its first event and is made
    on the context extended by one hint whose actions are the set
    {Pull, Push, Delete}, without duplicates and with Push once. *)
Theorem scope_hints_before_resolve
    (env : Env) (ctx c : Context) (opts : deleteOptions) (ref : string) :
  ReferrersAPI opts = None \/ ReferrersAPI opts = Some false ->
  In (EvResolve c ref) (snd (run (deleteManifest env ctx opts))) ->
  count_occ string_dec (hints opts) ActionPush = 2 /\
  exists h rest,
    c = ctx ++ [h] /\
    snd (run (deleteManifest env ctx opts)) = EvResolve c ref :: rest /\
    NewRepository env opts = Ok (hint_repo h) /\
    (list_to_set (hint_actions h) : gset string) =
      {[ ActionPull; ActionPush; ActionDelete ]} /\
    NoDup (hint_actions h) /\
    count_occ string_dec (hint_actions h) ActionPush = 1.
Proof.
  intros Href Hin. split.
  { unfold hints. by destruct Href as [-> | ->]. }
  destruct (trace_shape env ctx opts) as [E | (repo & rest & Hrepo & E & Hrest)].
  { rewrite E in Hin. destruct Hin. }
  rewrite E in Hin. destruct Hin as [Heq | Hin].
  - injection Heq as <- <-.
    exists (mkScopeHint repo (fold_left add_action (hints opts) [])), rest.
    split; [unfold WithScopeHint; by rewrite registered_actions|].
    split; [exact E|]. split; [exact Hrepo|].
    rewrite registered_actions. simpl.
    split; [set_solver|]. split; [|reflexivity].
    apply (bool_decide_unpack _). vm_compute. exact I.
  - exfalso. rewrite forallb_forall in Hrest.
    specialize (Hrest _ Hin). discriminate.
Qed.

Lemma scope_hints_before_resolve_witness :
  count_occ string_dec (hints (Samples.flags true false None)) ActionPush = 2 /\
  exists h rest,
    snd (run (deleteManifest Samples.env_present [] (Samples.flags true false None))) =
      EvResolve [h] "localhost:5000/hello:v1" :: rest /\
    count_occ string_dec (hint_actions h) ActionPush = 1.
Proof.
  destruct (scope_hints_before_resolve Samples.env_present []
              [mkScopeHint Samples.hello_v1 ["pull"; "push"; "delete"]]
              (Samples.flags true false None) "localhost:5000/hello:v1"
              (or_introl eq_refl) (or_introl eq_refl))
    as (Hc & h & rest & Eh & Et & _ & _ & _ & Hp).
  split; [exact Hc|].
  exists h, rest. injection Eh as <-. split; assumption.
Defined.

Lemma never_deletes_decide (t : list event) :
  forallb (fun e => negb (is_Delete e)) t = true -> never_deletes t.
Proof.
  intros H c d Hin. rewrite forallb_forall in H.
  specialize (H _ Hin). discriminate.
Qed.

(** C4: resolve fails with not-found, force is set and descriptor output
    is not: the run prints "Missing <reference>", returns no error, and
    its events are the resolve call and that line, so
    [ManifestStore.Delete] is not called. *)
Theorem missing_under_force_is_success
    (env : Env) (ctx : Context) (opts : deleteOptions) (err : error) :
  resolve_returns env ctx opts (Err err) ->
  Is err ErrNotFound = true ->
  Force opts = true -> OutputDescriptor opts = false ->
  exists c,
    run (deleteManifest env ctx opts) =
      (None, [EvResolve c (targetRef opts);
              EvPrintln ("Missing " +:+ targetRef opts)]) /\
    never_deletes (snd (run (deleteManifest env ctx opts))).
Proof.
  intros (repo & Hrepo & Hne & Hres) Hnf Hf Hd.
  exists (WithScopeHint repo ctx (hints opts)).
  assert (E : run (deleteManifest env ctx opts) =
    (None, [EvResolve (WithScopeHint repo ctx (hints opts)) (targetRef opts);
            EvPrintln ("Missing " +:+ targetRef opts)])).
  { step_delete. rewrite Hrepo, (nonempty_eqb _ Hne). simpl.
    rewrite Hres, Hnf, Hf, Hd. reflexivity. }
  split; [exact E|]. rewrite E. by apply never_deletes_decide.
Qed.

Lemma missing_under_force_is_success_witness :
  exists c,
    run (deleteManifest Samples.env_absent [] (Samples.flags true false None)) =
      (None, [EvResolve c "localhost:5000/hello:v1";
              EvPrintln "Missing localhost:5000/hello:v1"]) /\
    never_deletes
      (snd (run (deleteManifest Samples.env_absent [] (Samples.flags true false None)))).
Proof.
  apply (missing_under_force_is_success Samples.env_absent []
           (Samples.flags true false None)
           (wrapError "localhost:5000/hello:v1: not found" ErrNotFound)).
  - exists Samples.hello_v1. repeat split. discriminate.
  - reflexivity.
  - reflexivity.
  - reflexivity.
Defined.

(** C5: when resolve fails, the run ends after the resolve call and
    [ManifestStore.Delete] is not called.  On not-found without force the
    returned error's message contains the target reference and "does not
    exist"; a failure that is not a not-found is returned as it is. *)
Theorem resolve_failure_is_reported
    (env : Env) (ctx : Context) (opts : deleteOptions) (err : error) :
  resolve_returns env ctx opts (Err err) ->
  (Is err ErrNotFound = true -> Force opts = false ->
     exists e,
       fst (run (deleteManifest env ctx opts)) = Some e /\
       GoStrings.Contains (Error e) (targetRef opts) = true /\
       GoStrings.Contains (Error e) "does not exist" = true /\
       never_deletes (snd (run (deleteManifest env ctx opts)))) /\
  (Is err ErrNotFound = false ->
     fst (run (deleteManifest env ctx opts)) = Some err /\
     never_deletes (snd (run (deleteManifest env ctx opts)))).
Proof.
  intros (repo & Hrepo & Hne & Hres). split.
  - intros Hnf Hf.
    exists (errorString (targetRef opts +:+ ": the specified manifest does not exist")).
    assert (E : run (deleteManifest env ctx opts) =
      (Some (errorString
         (targetRef opts +:+ ": the specified manifest does not exist")),
       [EvResolve (WithScopeHint repo ctx (hints opts)) (targetRef opts)])).
    { step_delete. rewrite Hrepo, (nonempty_eqb _ Hne). simpl.
      rewrite Hres, Hnf, Hf. reflexivity. }
    rewrite E. simpl. split; [reflexivity|]. split; [apply Contains_here|].
    split; [|by apply never_deletes_decide].
    replace (targetRef opts +:+ ": the specified manifest does not exist")
      with ((targetRef opts +:+ ": the specified manifest ") +:+
            "does not exist" +:+ "")
      by (rewrite append_assoc; reflexivity).
    apply Contains_middle.
  - intros Hnf.
    assert (E : run (deleteManifest env ctx opts) =
      (Some err,
       [EvResolve (WithScopeHint repo ctx (hints opts)) (targetRef opts)])).
    { step_delete. rewrite Hrepo, (nonempty_eqb _ Hne). simpl.
      rewrite Hres, Hnf. reflexivity. }
    rewrite E. split; [reflexivity | by apply never_deletes_decide].
Qed.

Lemma resolve_failure_is_reported_witness :
  (exists e,
     fst (run (deleteManifest Samples.env_absent [] (Samples.flags false false None)))
       = Some e /\
     GoStrings.Contains (Error e) "localhost:5000/hello:v1" = true /\
     GoStrings.Contains (Error e) "does not exist" = true /\
     never_deletes (snd (run (deleteManifest Samples.env_absent []
                                (Samples.flags false false None))))) /\
  fst (run (deleteManifest Samples.env_unreachable [] (Samples.flags false false None)))
    = Some (errorString "connection refused").
Proof.
  split.
  - apply (resolve_failure_is_reported Samples.env_absent []
             (Samples.flags false false None)
             (wrapError "localhost:5000/hello:v1: not found" ErrNotFound)).
    + exists Samples.hello_v1. repeat split. discriminate.
    + reflexivity.
    + reflexivity.
  - apply (resolve_failure_is_reported Samples.env_unreachable []
             (Samples.flags false false None) (errorString "connection refused")).
    + exists Samples.hello_v1. repeat split. discriminate.
    + reflexivity.
Defined.

(** C6: resolve succeeds and the confirmation answers "no": the run
    returns no error, its events are the resolve call and the prompt, and
    [ManifestStore.Delete] is not called. *)
Theorem declined_confirmation_is_clean
    (env : Env) (ctx : Context) (opts : deleteOptions) (desc : Descriptor) :
  resolve_returns env ctx opts (Ok desc) ->
  AskForConfirmation env opts (prompt_for env desc) = Ok false ->
  exists c,
    run (deleteManifest env ctx opts) =
      (None, [EvResolve c (targetRef opts); EvAsk (prompt_for env desc)]) /\
    never_deletes (snd (run (deleteManifest env ctx opts))).
Proof.
  intros (repo & Hrepo & Hne & Hres) Hask.
  exists (WithScopeHint repo ctx (hints opts)).
  assert (E : run (deleteManifest env ctx opts) =
    (None, [EvResolve (WithScopeHint repo ctx (hints opts)) (targetRef opts);
            EvAsk (prompt_for env desc)])).
  { step_delete. rewrite Hrepo, (nonempty_eqb _ Hne). simpl.
    rewrite Hres. unfold prompt_for in Hask. rewrite Hask. reflexivity. }
  split; [exact E|]. rewrite E. by apply never_deletes_decide.
Qed.

Lemma declined_confirmation_is_clean_witness :
  exists c p,
    run (deleteManifest Samples.env_present [] (Samples.flags false false None)) =
      (None, [EvResolve c "localhost:5000/hello:v1"; EvAsk p]).
Proof.
  destruct (declined_confirmation_is_clean Samples.env_present []
              (Samples.flags false false None)
              (Samples.unnamed Samples.sample_digest)) as (c & E & _).
  - exists Samples.hello_v1. repeat split. discriminate.
  - reflexivity.
  - exists c. eexists. exact E.
Defined.

(** C7: a target whose reference component is empty makes the run fail
    with the error built by [NewErrInvalidReference] and with an empty
    event trace: neither resolve nor any other call is made. *)
Theorem empty_reference_fails_first
    (env : Env) (ctx : Context) (opts : deleteOptions) (repo : remote_Repository) :
  NewRepository env opts = Ok repo ->
  Reference (Repo_Reference repo) = "" ->
  run (deleteManifest env ctx opts) =
    (Some (NewErrInvalidReference env (Repo_Reference repo)), []).
Proof.
  intros Hrepo Hempty. step_delete. rewrite Hrepo, Hempty. reflexivity.
Qed.

Lemma empty_reference_fails_first_witness :
  run (deleteManifest Samples.env_bare [] (Samples.flags true false None)) =
    (Some (errorString "invalid reference"), []).
Proof.
  exact (empty_reference_fails_first Samples.env_bare []
           (Samples.flags true false None) Samples.hello_bare eq_refl eq_refl).
Defined.

End DeleteFacts.

(* ===================================================================== *)
(** ** The push options                                                  *)
(* ===================================================================== *)

Section PushOptionFacts.
Import ocispec oras.

(** C8: [WithPushBaseHandler] returns nil, stores the old handler list
    followed by the supplied handlers, and copies every other field; a
    second application therefore keeps what the first one appended. *)
Theorem base_handlers_are_appended
    (handlers more : list Handler) (o : pushOpts) :
  let o1 := fst (WithPushBaseHandler handlers o) in
  let o2 := fst (WithPushBaseHandler more o1) in
  snd (WithPushBaseHandler handlers o) = None /\
  baseHandlers o1 = baseHandlers o ++ handlers /\
  baseHandlers o2 = baseHandlers o ++ handlers ++ more /\
  config o1 = config o /\
  configMediaType o1 = configMediaType o /\
  configAnnotations o1 = configAnnotations o /\
  manifest o1 = manifest o /\
  manifestAnnotations o1 = manifestAnnotations o /\
  manifestWriter o1 = manifestWriter o /\
  validateName o1 = validateName o /\
  artifact o1 = artifact o.
Proof.
  simpl. repeat split. symmetry. apply List.app_assoc.
Qed.

Lemma slice_to_in_range (s : string) (n : nat) :
  n <= String.length s ->
  GoStrings.slice_to s n = Some (String.substring 0 n s).
Proof.
  intros H. unfold GoStrings.slice_to.
  by destruct (Nat.leb_spec n (String.length s)); [|lia].
Qed.

Lemma slice_to_out_of_range (s : string) (n : nat) :
  String.length s < n -> GoStrings.slice_to s n = None.
Proof.
  intros H. unfold GoStrings.slice_to.
  by destruct (Nat.leb_spec n (String.length s)); [lia|].
Qed.

(** C9: for a descriptor with a name and an encoded digest [enc], the
    handler built on a writer returns no children and no error, after
    writing "Uploading", the first 12 bytes of [enc] and the name, when
    [enc] has at least 12 bytes; when [enc] is shorter the slice
    [enc[:12]] is out of range and the call panics, whatever the writer. *)
Theorem status_track_needs_twelve_bytes
    (w : nat) (writer : Writer) (desc : Descriptor) (sinks : Sinks)
    (name enc : string) :
  ResolveName desc = Some name ->
  Encoded (Digest_ desc) = inr enc ->
  (12 <= String.length enc ->
     pushStatusTrack (Some w) desc sinks =
       Returned [] None
         (<[w := default "" (sinks !! w) +:+
                 sprintln ["Uploading"; String.substring 0 12 enc; name]]> sinks)) /\
  (String.length enc < 12 ->
     pushStatusTrack writer desc sinks = Panicked SliceBoundsOutOfRange).
Proof.
  intros Hname Henc. unfold pushStatusTrack. rewrite Hname, Henc. split.
  - intros Hlen. by rewrite (slice_to_in_range _ _ Hlen).
  - intros Hlen. by rewrite (slice_to_out_of_range _ _ Hlen).
Qed.

Lemma status_track_needs_twelve_bytes_witness :
  pushStatusTrack (Some 1) (Samples.named "hello.txt" Samples.sample_digest) ∅ =
    Returned [] None
      {[ 1 := "Uploading 99e4703fbf30 hello.txt" +:+ newline ]} /\
  pushStatusTrack (Some 1) (Samples.named "hello.txt" "sha256:99e4703") ∅ =
    Panicked SliceBoundsOutOfRange.
Proof.
  split.
  - etrans.
    + apply (proj1 (status_track_needs_twelve_bytes 1 (Some 1)
               (Samples.named "hello.txt" Samples.sample_digest) ∅ "hello.txt"
               "99e4703fbf30916f549cd6bfa9cdbab614b5392fbe64fdee971359a77073cdf9"
               eq_refl eq_refl)).
      simpl. lia.
    + vm_compute. reflexivity.
  - apply (proj2 (status_track_needs_twelve_bytes 1 (Some 1)
             (Samples.named "hello.txt" "sha256:99e4703") ∅ "hello.txt"
             "99e4703" eq_refl eq_refl)).
    simpl. lia.
Defined.

Lemma distinguished_returns_nil (opt : PushOpt) :
  distinguished opt -> forall o, snd (opt o) = None.
Proof. intros [] o; reflexivity. Qed.

(** C10: each of the ten option constructors of the file yields a
    mutator that returns nil on every configuration, so a builder run
    over such options never takes its abort branch: it returns nil and
    the configuration obtained by applying all of them in order. *)
Theorem push_options_never_fail (opts : list PushOpt) (o : pushOpts) :
  Forall distinguished opts ->
  Forall (fun opt => forall o', snd (opt o') = None) opts /\
  applyOpts opts o = (fold_left (fun acc opt => fst (opt acc)) opts o, None).
Proof.
  intros H. split.
  - eapply Forall_impl; [exact H|]. intros opt Hd. by apply distinguished_returns_nil.
  - revert o. induction H as [|opt opts Hd _ IH]; intros o; [reflexivity|].
    simpl. pose proof (distinguished_returns_nil opt Hd o) as Hnil.
    destruct (opt o) as [o' e]. simpl in Hnil. subst e. apply IH.
Qed.

Lemma push_options_never_fail_witness :
  snd (applyOpts Samples.one_of_each pushOptsDefaults) = None.
Proof.
  rewrite (proj2 (push_options_never_fail Samples.one_of_each pushOptsDefaults
    ltac:(repeat constructor))).
  reflexivity.
Defined.

End PushOptionFacts.

(* ===================================================================== *)
(** ** [filepath.Clean] on relative paths                                *)
(* ===================================================================== *)

Section CleanFacts.
Import Filepath.

Lemma join_cons (el : list ascii) (rest : list (list ascii)) :
  rest <> [] -> join (el :: rest) = el ++ Separator :: join rest.
Proof. intros H. by destruct rest. Qed.

Lemma join_snoc (els : list (list ascii)) (el : list ascii) :
  els <> [] -> join (els ++ [el]) = join els ++ Separator :: el.
Proof.
  induction els as [|a els IH]; [done|]. intros _.
  destruct els as [|b els]; [reflexivity|].
  change ((a :: b :: els) ++ [el]) with (a :: ((b :: els) ++ [el])).
  rewrite (join_cons a ((b :: els) ++ [el])) by done.
  rewrite IH by done. rewrite (join_cons a (b :: els)) by done.
  by rewrite <- List.app_assoc.
Qed.

Lemma join_nonempty (els : list (list ascii)) :
  Forall (fun el => el <> []) els -> els <> [] -> join els <> [].
Proof.
  intros H Hne. destruct els as [|a els]; [done|].
  inversion H as [|? ? Ha _]; subst.
  destruct els; simpl; [done|]. by destruct a.
Qed.

Lemma join_length_prefix (ups els : list (list ascii)) :
  length (join ups) <= length (join (ups ++ els)).
Proof.
  induction ups as [|a ups IH]; simpl; [lia|].
  destruct ups as [|b ups].
  - destruct els; simpl; [lia|]. rewrite length_app. lia.
  - change ((b :: ups) ++ els) with (b :: (ups ++ els)) in *.
    rewrite !length_app. simpl in *. lia.
Qed.

(** The copy loop stops at the first separator or at the end. *)
Lemma copy_element_split (rest : list ascii) :
  exists el rest',
    copy_element rest = (el, rest') /\ rest = el ++ rest' /\
    sepfree el /\ ends_element rest' = true.
Proof.
  induction rest as [|c rest IH]; simpl.
  - exists [], []. repeat split. constructor.
  - destruct (IsPathSeparator c) eqn:Hc.
    + exists [], (c :: rest). repeat split; [constructor | exact Hc].
    + destruct IH as (el & rest' & -> & -> & Hel & Hend).
      exists (c :: el), rest'. repeat split; [by constructor | exact Hend].
Qed.

(** A separator-free element followed by a separator or the end is found
    in one way only. *)
Lemma element_unique (el el' rest rest' : list ascii) :
  sepfree el -> sepfree el' ->
  ends_element rest = true -> ends_element rest' = true ->
  el ++ rest = el' ++ rest' -> el = el' /\ rest = rest'.
Proof.
  intros Hel. revert el'.
  induction Hel as [|c el Hc Hel IH]; intros el' Hel' Hr Hr' E.
  - destruct Hel' as [|c' el' Hc' _]; [done|].
    simpl in E. subst rest. simpl in Hr. congruence.
  - destruct Hel' as [|c' el' Hc' Hel'].
    + simpl in E. subst rest'. simpl in Hr'. congruence.
    + simpl in E. injection E as <- E.
      destruct (IH el' Hel' Hr Hr' E) as [-> ->]. done.
Qed.

Lemma copy_element_plain (el rest : list ascii) :
  sepfree el -> ends_element rest = true ->
  copy_element (el ++ rest) = (el, rest).
Proof.
  intros Hel Hr.
  destruct (copy_element_split (el ++ rest)) as (el' & rest' & E & Hs & Hel' & Hr').
  destruct (element_unique _ _ _ _ Hel Hel' Hr Hr' Hs) as [-> ->]. exact E.
Qed.

Lemma sepfree_head (c : ascii) (el rest : list ascii) :
  sepfree (c :: el) -> ends_element ((c :: el) ++ rest) = false.
Proof. intros H. inversion H; subst. done. Qed.

(** One iteration on a real element of a relative path. *)
Lemma loop_real_element (fuel : nat) (el rest out : list ascii) (dotdot : nat) :
  plain el -> ends_element rest = true ->
  clean_loop (S fuel) false (el ++ rest) out dotdot =
  clean_loop fuel false rest (push_element out el) dotdot.
Proof.
  intros (Hne & Hsf & Hdot & Hdd) Hend.
  pose proof (copy_element_plain el rest Hsf Hend) as Hcopy.
  destruct el as [|c el]; [done|].
  assert (Hc : IsPathSeparator c = false) by (by inversion Hsf).
  assert (Hsf' : sepfree el) by (by inversion Hsf).
  change ((c :: el) ++ rest) with (c :: (el ++ rest)) in *.
  cbn [clean_loop]. rewrite Hc.
  assert (H2 : Ascii.eqb c dot && ends_element (el ++ rest) = false).
  { destruct (Ascii.eqb_spec c dot) as [->|]; [|done]. simpl.
    destruct el as [|c1 el]; [done|]. by apply sepfree_head. }
  rewrite H2.
  assert (H3 : Ascii.eqb c dot &&
               match el ++ rest with
               | c1 :: rest2 => Ascii.eqb c1 dot && ends_element rest2
               | [] => false
               end = false).
  { destruct (Ascii.eqb_spec c dot) as [->|]; [|done]. simpl.
    destruct el as [|c1 el]; [done|]. simpl.
    destruct (Ascii.eqb_spec c1 dot) as [->|]; [|done]. simpl.
    destruct el as [|c2 el]; [done|]. apply sepfree_head. by inversion Hsf'. }
  rewrite H3, Hcopy. unfold push_element.
  by destruct (length out =? 0).
Qed.

Lemma loop_done (fuel : nat) (rooted : bool) (out : list ascii) (dotdot : nat) :
  clean_loop fuel rooted [] out dotdot = out.
Proof. by destruct fuel. Qed.

Lemma plain_length (el : list ascii) : plain el -> 0 < length el.
Proof. intros (Hne & _). destruct el; [done | simpl; lia]. Qed.

(** A relative path made of real elements only: every element is pushed. *)
Lemma loop_plain_elements (els : list (list ascii)) :
  Forall plain els ->
  forall fuel out dotdot,
    length (join els) <= fuel ->
    clean_loop fuel false (join els) out dotdot = fold_left push_element els out.
Proof.
  induction 1 as [|el els Hel Hels IH]; intros fuel out dotdot Hfuel.
  - apply loop_done.
  - pose proof (plain_length el Hel) as Hlen.
    destruct els as [|b els].
    + change (join [el]) with el in *. destruct fuel as [|fuel]; [lia|].
      rewrite <- (List.app_nil_r el) at 1.
      rewrite loop_real_element by done. apply loop_done.
    + rewrite (join_cons el (b :: els)) in * by done.
      rewrite length_app in Hfuel. cbn [length] in Hfuel.
      destruct fuel as [|[|fuel]]; [lia..|].
      rewrite loop_real_element by done.
      cbn [clean_loop]. change (IsPathSeparator Separator) with true.
      cbn iota. rewrite IH by lia. reflexivity.
Qed.

Lemma push_element_nonempty (out el : list ascii) :
  el <> [] -> push_element out el <> [].
Proof.
  intros H. unfold push_element.
  destruct (length out =? 0), out, el; done.
Qed.

Lemma push_all_onto (els : list (list ascii)) :
  Forall (fun el => el <> []) els -> els <> [] ->
  forall out, out <> [] ->
    fold_left push_element els out = out ++ Separator :: join els.
Proof.
  induction 1 as [|el els Hel Hels IH]; [done|]. intros _ out Hout.
  assert (E : push_element out el = out ++ Separator :: el).
  { unfold push_element. destruct out; [done|]. simpl.
    by rewrite <- List.app_assoc. }
  destruct els as [|b els]; [exact E|].
  change (fold_left push_element (el :: b :: els) out)
    with (fold_left push_element (b :: els) (push_element out el)).
  rewrite IH; [|done|by apply push_element_nonempty].
  rewrite E, (join_cons el (b :: els)) by done.
  rewrite <- List.app_assoc. reflexivity.
Qed.

Lemma push_all_from_empty (els : list (list ascii)) :
  Forall (fun el => el <> []) els -> fold_left push_element els [] = join els.
Proof.
  intros H. destruct H as [|el els Hel Hels]; [reflexivity|].
  destruct els as [|b els]; [reflexivity|].
  change (fold_left push_element (el :: b :: els) [])
    with (fold_left push_element (b :: els) el).
  rewrite push_all_onto, (join_cons el (b :: els)); try done.
Qed.

Lemma plain_nonempty (els : list (list ascii)) :
  Forall plain els -> Forall (fun el => el <> []) els.
Proof. intros H. eapply Forall_impl; [exact H|]. by intros el (? & _). Qed.

(** [Clean] leaves a relative path of real elements as it is. *)
Lemma clean_bytes_plain (els : list (list ascii)) :
  Forall plain els -> els <> [] -> clean_bytes (join els) = join els.
Proof.
  intros Hels Hne.
  pose proof (join_nonempty els (plain_nonempty els Hels) Hne) as Hj.
  assert (Hhead : exists c r, join els = c :: r /\ IsPathSeparator c = false).
  { destruct els as [|el els]; [done|]. inversion Hels as [|? ? Hel _]; subst.
    destruct Hel as (Hne' & Hsf & _). destruct el as [|c el]; [done|].
    exists c. inversion Hsf; subst.
    destruct els; simpl; eauto. }
  destruct Hhead as (c & r & E & Hc).
  unfold clean_bytes. rewrite E, Hc, <- E.
  rewrite loop_plain_elements, push_all_from_empty
    by (done || by apply plain_nonempty).
  destruct (join els); done.
Qed.

Lemma canon_start : canon [] 0.
Proof. exists 0, []. repeat split. constructor. Qed.

Lemma ups_nonempty (k : nat) : Forall (fun el => el <> []) (repeat dotdot_el k).
Proof. induction k; simpl; constructor; done. Qed.

Lemma join_length_strict (ups els : list (list ascii)) :
  Forall (fun el => el <> []) els -> els <> [] ->
  length (join ups) < length (join (ups ++ els)).
Proof.
  intros Hels Hne.
  destruct (exists_last Hne) as (els' & el & ->).
  apply Forall_app in Hels as [_ Hel]. inversion Hel as [|? ? Hel' _]; subst.
  rewrite List.app_assoc.
  pose proof (join_length_prefix ups els') as Hle.
  destruct (ups ++ els') as [|a l] eqn:E.
  - apply app_eq_nil in E as [-> ->]. simpl. destruct el; [done | simpl; lia].
  - rewrite join_snoc by done. rewrite length_app. cbn [length]. lia.
Qed.

(** The backtracking loop stops on the separator before the last element. *)
Lemma backtrack_to_separator (X el : list ascii) (dotdot j : nat) :
  sepfree el -> dotdot <= length X -> j <= length el ->
  backtrack (X ++ Separator :: el) dotdot (length X + j) = length X.
Proof.
  intros Hel Hdd. induction j as [|j IH]; intros Hj.
  - rewrite Nat.add_0_r. destruct (length X) as [|n] eqn:E; [reflexivity|].
    cbn [backtrack]. rewrite <- E.
    rewrite app_nth2 by lia. rewrite Nat.sub_diag. simpl.
    by rewrite andb_false_r.
  - rewrite Nat.add_succ_r. cbn [backtrack].
    assert (Hlt : (dotdot <? S (length X + j)) = true) by (apply Nat.ltb_lt; lia).
    rewrite Hlt. rewrite app_nth2 by lia.
    replace (S (length X + j) - length X) with (S j) by lia.
    cbn [nth].
    assert (Hc : IsPathSeparator (nth j el "000"%char) = false).
    { unfold sepfree in Hel. rewrite List.Forall_forall in Hel.
      apply Hel, nth_In. lia. }
    rewrite Hc. simpl. apply IH. lia.
Qed.

(** With a single element in the buffer it runs down to the start. *)
Lemma backtrack_to_start (el : list ascii) (j : nat) :
  sepfree el -> j < length el -> backtrack el 0 j = 0.
Proof.
  intros Hel. induction j as [|j IH]; intros Hj; [reflexivity|].
  cbn [backtrack].
  assert (Hc : IsPathSeparator (nth (S j) el "000"%char) = false).
  { unfold sepfree in Hel. rewrite List.Forall_forall in Hel.
    apply Hel, nth_In. lia. }
  rewrite Hc. simpl. apply IH. lia.
Qed.

Lemma canon_pop (out : list ascii) (dotdot : nat) :
  canon out dotdot -> dotdot < length out ->
  canon (firstn (backtrack out dotdot (length out - 1)) out) dotdot.
Proof.
  intros (k & els & Hels & -> & ->) Hlt.
  assert (Hne : els <> []).
  { intros ->. rewrite List.app_nil_r in Hlt. lia. }
  destruct (exists_last Hne) as (els' & el & ->).
  apply Forall_app in Hels as [Hels' Hel].
  inversion Hel as [|? ? (Hne' & Hsf & _) _]; subst.
  rewrite List.app_assoc.
  destruct (repeat dotdot_el k ++ els') as [|a l] eqn:E.
  - apply app_eq_nil in E as [E ->].
    assert (k = 0) as -> by (by destruct k).
    simpl. rewrite backtrack_to_start; [| done | destruct el; [done | simpl; lia]].
    exists 0, []. repeat split. constructor.
  - rewrite join_snoc by done. rewrite <- E.
    set (X := join (repeat dotdot_el k ++ els')).
    rewrite length_app. cbn [length].
    replace (length X + S (length el) - 1) with (length X + length el) by lia.
    rewrite backtrack_to_separator;
      [| done | apply join_length_prefix | lia].
    rewrite firstn_app, Nat.sub_diag, firstn_all. simpl. rewrite List.app_nil_r.
    exists k, els'. done.
Qed.

Lemma canon_up (out : list ascii) (dotdot : nat) :
  canon out dotdot -> length out <= dotdot ->
  let out2 := (if 0 <? length out then out ++ [Separator] else out) ++ dotdot_el in
  canon out2 (length out2).
Proof.
  intros (k & els & Hels & -> & ->) Hle.
  assert (els = []) as ->.
  { destruct els as [|el els]; [done|]. exfalso.
    pose proof (join_length_strict (repeat dotdot_el k) (el :: els)
                  (plain_nonempty _ Hels) ltac:(done)). lia. }
  rewrite List.app_nil_r. intros out2.
  assert (E : out2 = join (repeat dotdot_el (S k))).
  { subst out2. destruct k as [|k]; [reflexivity|].
    assert (Hne : join (repeat dotdot_el (S k)) <> [])
      by (apply join_nonempty; [apply ups_nonempty | done]).
    destruct (Nat.ltb_spec 0 (length (join (repeat dotdot_el (S k))))) as [_|H0].
    - change (repeat dotdot_el (S (S k))) with (dotdot_el :: repeat dotdot_el (S k)).
      rewrite repeat_cons, join_snoc by done. by rewrite <- List.app_assoc.
    - destruct (join (repeat dotdot_el (S k))); [done | simpl in H0; lia]. }
  exists (S k), []. rewrite List.app_nil_r, E. repeat split. constructor.
Qed.

Lemma canon_push (out el : list ascii) (dotdot : nat) :
  canon out dotdot -> plain el -> canon (push_element out el) dotdot.
Proof.
  intros (k & els & Hels & -> & ->) Hel.
  exists k, (els ++ [el]). split; [|split; [|done]].
  - apply Forall_app. split; [done | by constructor].
  - rewrite List.app_assoc. unfold push_element.
    destruct (repeat dotdot_el k ++ els) as [|a l] eqn:E; [reflexivity|].
    rewrite join_snoc by done.
    assert (Hne : join (a :: l) <> []).
    { apply join_nonempty; [|done]. rewrite <- E. apply Forall_app.
      split; [apply ups_nonempty | by apply plain_nonempty]. }
    destruct (join (a :: l)); [done|]. simpl. by rewrite <- List.app_assoc.
Qed.

(** The main loop keeps the shape of the buffer, on any input and for
    any number of iterations. *)
Lemma loop_canon (fuel : nat) :
  forall rest out dotdot,
    canon out dotdot ->
    exists dotdot', canon (clean_loop fuel false rest out dotdot) dotdot'.
Proof.
  induction fuel as [|fuel IH]; intros rest out dotdot Hc; [by exists dotdot|].
  destruct rest as [|c rest1]; [by exists dotdot|].
  cbn [clean_loop].
  destruct (IsPathSeparator c) eqn:Hsep; [by eapply IH|].
  destruct (Ascii.eqb c dot && ends_element rest1) eqn:Hdot; [by eapply IH|].
  destruct (Ascii.eqb c dot &&
            match rest1 with
            | c1 :: rest2 => Ascii.eqb c1 dot && ends_element rest2
            | [] => false
            end) eqn:Hdd.
  - destruct (Nat.ltb_spec dotdot (length out)) as [Hlt|Hge].
    + eapply IH. by apply canon_pop.
    + cbn [negb]. eapply IH. by apply (canon_up out dotdot).
  - destruct (copy_element_split (c :: rest1)) as (el & rest' & E & Hs & Hsf & Hend).
    rewrite E. cbn [andb orb negb].
    replace ((if negb (length out =? 0) then out ++ [Separator] else out) ++ el)
      with (push_element out el)
      by (unfold push_element; by destruct (length out =? 0)).
    eapply IH. apply canon_push; [done|].
    repeat split; [| done | |].
    + intros ->. simpl in Hs. subst rest'. simpl in Hend. congruence.
    + intros ->. injection Hs as -> ->.
      rewrite Hend in Hdot. discriminate.
    + intros ->. injection Hs as -> ->.
      simpl in Hdd. rewrite Hend in Hdd. discriminate.
Qed.

(** What [Clean] returns for a path that does not start with a separator. *)
Lemma clean_bytes_relative (c : ascii) (path : list ascii) :
  IsPathSeparator c = false ->
  clean_bytes (c :: path) = [dot] \/
  exists k els,
    Forall plain els /\ clean_bytes (c :: path) = join (repeat dotdot_el k ++ els).
Proof.
  intros Hc. unfold clean_bytes. rewrite Hc.
  destruct (loop_canon (length (c :: path)) (c :: path) [] 0 canon_start)
    as (d & k & els & Hels & E & _).
  destruct (length _ =? 0); [by left|].
  right. by exists k, els.
Qed.

(** A relative path that [Clean] leaves unchanged and that does not start
    with a [..] element is [.] or a list of real elements. *)
Lemma clean_fixed_point (path : list ascii) :
  path <> [] -> ends_element path = false ->
  clean_bytes path = path ->
  path <> dotdot_el ->
  (forall rest, path <> dotdot_el ++ Separator :: rest) ->
  path = [dot] \/ exists els, els <> [] /\ Forall plain els /\ path = join els.
Proof.
  intros Hne Hhead Hfix Hdd Hup.
  destruct path as [|c path]; [done|]. simpl in Hhead.
  destruct (clean_bytes_relative c path Hhead) as [E | (k & els & Hels & E)];
    rewrite Hfix in E; [by left|].
  right. destruct k as [|k].
  - exists els. repeat split; [|done..]. intros ->. done.
  - exfalso. simpl in E.
    destruct (repeat dotdot_el k ++ els) as [|a l].
    + by apply Hdd.
    + by apply (Hup (join (a :: l))).
Qed.

End CleanFacts.

(* ===================================================================== *)
(** ** The path validator                                                *)
(* ===================================================================== *)

Section ValidatorFacts.
Import ocispec oras.

(** *** Strings and their bytes *)

Lemma bytes_app (a b : string) :
  list_ascii_of_string (a +:+ b) = list_ascii_of_string a ++ list_ascii_of_string b.
Proof.
  induction a as [|c a IH]; [reflexivity|].
  rewrite append_cons. simpl. by rewrite IH.
Qed.

Lemma bytes_inj (a b : string) :
  list_ascii_of_string a = list_ascii_of_string b -> a = b.
Proof.
  intros H. rewrite <- (string_of_list_ascii_of_string a),
    <- (string_of_list_ascii_of_string b). by rewrite H.
Qed.

Lemma bytes_concat (els : list string) :
  list_ascii_of_string (String.concat "/" els) = join (map list_ascii_of_string els).
Proof.
  induction els as [|a els IH]; [reflexivity|].
  destruct els as [|b els]; [reflexivity|].
  change (String.concat "/" (a :: b :: els))
    with (a +:+ "/" +:+ String.concat "/" (b :: els)).
  rewrite !bytes_app, IH. reflexivity.
Qed.

Lemma prefix_iff (p s : string) :
  String.prefix p s = true <-> exists rest, s = p +:+ rest.
Proof.
  revert s. induction p as [|c p IH]; intros s.
  - split; [intros _; by exists s | intros _; by destruct s].
  - destruct s as [|d s]; simpl.
    + split; [done | intros (rest & H); by rewrite append_cons in H].
    + destruct (ascii_dec c d) as [->|Hne].
      * rewrite IH. split; intros (rest & H); exists rest.
        -- by rewrite append_cons, H.
        -- rewrite append_cons in H. congruence.
      * split; [done|]. intros (rest & H). rewrite append_cons in H. congruence.
Qed.

Lemma Contains_byte (s : string) (c : ascii) :
  GoStrings.Contains s (String c "") = true <-> In c (list_ascii_of_string s).
Proof.
  induction s as [|d s IH]; simpl.
  - split; [done | intros []].
  - unfold GoStrings.HasPrefix. simpl.
    destruct (ascii_dec c d) as [->|Hne].
    + assert (String.prefix "" s = true) as -> by (by destruct s).
      split; [by left | done].
    + simpl. rewrite IH. split; [by right | by intros [|]].
Qed.

Lemma byte_between_iff (lo c hi : ascii) :
  GoStrings.byte_between lo c hi = true <->
  nat_of_ascii lo <= nat_of_ascii c <= nat_of_ascii hi.
Proof.
  unfold GoStrings.byte_between.
  rewrite andb_true_iff, !Nat.leb_le. done.
Qed.

Lemma has_drive_prefix_iff (p : string) :
  has_drive_prefix p = true <-> drive_absolute p.
Proof.
  unfold has_drive_prefix, drive_absolute, is_letter. split.
  - destruct p as [|c [|c1 [|c2 rest]]]; try done.
    change (2 <? String.length (String c (String c1 (String c2 rest)))) with true.
    unfold GoStrings.index. simpl.
    rewrite !andb_true_iff, orb_true_iff, !byte_between_iff.
    intros [[H1 H2] H3].
    apply Ascii.eqb_eq in H1 as ->. apply Ascii.eqb_eq in H2 as ->.
    exists c, rest. split; [exact H3 | reflexivity].
  - intros (c & rest & Hc & ->).
    change (2 <? String.length (String c (":/" +:+ rest))) with true.
    unfold GoStrings.index. simpl.
    rewrite orb_true_iff, !byte_between_iff. exact Hc.
Qed.

Lemma traversal_iff (p : string) :
  GoStrings.HasPrefix p "../" || String.eqb p ".." = true <-> traversal p.
Proof.
  unfold traversal, GoStrings.HasPrefix.
  rewrite orb_true_iff, prefix_iff, String.eqb_eq. tauto.
Qed.

(** *** Elements of a joined path *)

Lemma join_first (el : list ascii) (rest : list (list ascii)) :
  exists tail, join (el :: rest) = el ++ tail /\ Filepath.ends_element tail = true.
Proof.
  destruct rest as [|b rest].
  - exists []. by rewrite List.app_nil_r.
  - exists (Filepath.Separator :: join (b :: rest)). done.
Qed.

Lemma in_join (c : ascii) (el : list ascii) (els : list (list ascii)) :
  In el els -> In c el -> In c (join els).
Proof.
  induction els as [|a els IH]; [done|]. intros Hel Hc.
  destruct els as [|b els].
  - destruct Hel as [->|[]]. exact Hc.
  - rewrite (join_cons a (b :: els)) by done. apply in_or_app.
    destruct Hel as [->|Hel]; [by left|]. right. right. by apply IH.
Qed.

Lemma in_join_inv (c : ascii) (els : list (list ascii)) :
  In c (join els) -> c = Filepath.Separator \/ exists el, In el els /\ In c el.
Proof.
  induction els as [|a els IH]; [done|]. intros Hc.
  destruct els as [|b els].
  - right. exists a. split; [by left | exact Hc].
  - rewrite (join_cons a (b :: els)) in Hc by done.
    apply in_app_or in Hc as [Hc|[Hc|Hc]].
    + right. exists a. split; [by left | exact Hc].
    + by left.
    + destruct (IH Hc) as [->|(el & Hel & Hcel)]; [by left|].
      right. exists el. split; [by right | exact Hcel].
Qed.

Lemma join_head (els : list (list ascii)) :
  Forall plain els -> els <> [] -> Filepath.ends_element (join els) = false.
Proof.
  intros Hels Hne. destruct els as [|el els]; [done|].
  inversion Hels as [|? ? (Hne' & Hsf & _) _]; subst.
  destruct (join_first el els) as (tail & -> & _).
  destruct el as [|c el]; [done|]. by apply sepfree_head.
Qed.

(** *** Elements as strings and as bytes *)

Lemma plain_element_bytes (s : string) :
  plain_element s -> plain (list_ascii_of_string s).
Proof.
  intros (H1 & H2 & H3 & H4). repeat split.
  - intros E. apply H1. by apply bytes_inj.
  - apply List.Forall_forall. intros c Hc.
    apply Ascii.eqb_neq. by apply H4.
  - intros E. apply H2. by apply bytes_inj.
  - intros E. apply H3. by apply bytes_inj.
Qed.

Lemma plain_bytes_element (el : list ascii) :
  plain el -> ~ In "\"%char el -> plain_element (string_of_list_ascii el).
Proof.
  intros (H1 & H2 & H3 & H4) Hb.
  assert (Hbytes : list_ascii_of_string (string_of_list_ascii el) = el)
    by apply list_ascii_of_string_of_list_ascii.
  repeat split.
  - intros E. rewrite E in Hbytes. by subst el.
  - intros E. rewrite E in Hbytes. by subst el.
  - intros E. rewrite E in Hbytes. by subst el.
  - rewrite Hbytes in H. unfold sepfree in H2.
    rewrite List.Forall_forall in H2. by apply Ascii.eqb_neq, H2.
  - rewrite Hbytes in H. by intros ->.
Qed.

(** *** A name passes all four rules exactly when it is [.] or a
    well-formed relative slash path *)

Lemma well_formed_passes (p : string) :
  well_formed_relative p ->
  p <> "" /\ ~ dirty p /\ ~ has_backslash p /\
  ~ posix_absolute p /\ ~ drive_absolute p /\ ~ traversal p.
Proof.
  intros (els & Hne & Hels & -> & Hdrive).
  set (bels := map list_ascii_of_string els).
  assert (Hplain : Forall plain bels).
  { subst bels. apply Forall_map. eapply Forall_impl; [exact Hels|].
    intros s Hs. by apply plain_element_bytes. }
  assert (Hbne : bels <> []) by (subst bels; by destruct els).
  pose proof (bytes_concat els) as Hbytes. fold bels in Hbytes.
  pose proof (join_head bels Hplain Hbne) as Hhead.
  assert (Hfirst : forall tail, Filepath.ends_element tail = true ->
                     join bels <> dotdot_el ++ tail).
  { intros tail Htail E.
    destruct bels as [|el bels']; [done|].
    inversion Hplain as [|? ? (_ & Hsf & _ & Hdd) _]; subst.
    destruct (join_first el bels') as (tail' & E' & Htail').
    rewrite E' in E.
    apply element_unique in E as [-> _]; try done.
    repeat constructor. }
  repeat split.
  - intros E. rewrite E in Hbytes.
    by apply (join_nonempty bels (plain_nonempty _ Hplain) Hbne).
  - intros Hd. apply Hd. unfold Filepath.Clean.
    rewrite Hbytes, clean_bytes_plain by done.
    rewrite <- Hbytes. apply string_of_list_ascii_of_string.
  - unfold has_backslash. rewrite Hbytes. intros Hin.
    apply in_join_inv in Hin as [Hin|(el & Hel & Hin)]; [done|].
    subst bels. apply in_map_iff in Hel as (s & <- & Hs).
    rewrite List.Forall_forall in Hels.
    destruct (Hels s Hs) as (_ & _ & _ & H4). by destruct (H4 _ Hin).
  - intros (rest & E). rewrite E in Hbytes. simpl in Hbytes.
    rewrite <- Hbytes in Hhead. done.
  - exact Hdrive.
  - intros [E|(rest & E)]; rewrite E in Hbytes.
    + apply (Hfirst []); [done|]. by rewrite <- Hbytes.
    + apply (Hfirst (Filepath.Separator :: list_ascii_of_string rest)); [done|].
      by rewrite <- Hbytes.
Qed.

Lemma dot_passes :
  "." <> "" /\ ~ dirty "." /\ ~ has_backslash "." /\
  ~ posix_absolute "." /\ ~ drive_absolute "." /\ ~ traversal ".".
Proof.
  repeat split; try done.
  - intros H. by apply H.
  - intros [H|[]]. discriminate H.
  - intros (rest & H). discriminate H.
  - intros (c & rest & _ & H). discriminate H.
  - intros [H|(rest & H)]; discriminate H.
Qed.

Lemma passes_well_formed (p : string) :
  p <> "" -> ~ dirty p -> ~ has_backslash p ->
  ~ posix_absolute p -> ~ drive_absolute p -> ~ traversal p ->
  p = "." \/ well_formed_relative p.
Proof.
  intros Hne Hclean Hback Hposix Hdrive Htrav.
  set (b := list_ascii_of_string p).
  assert (Hp : p = string_of_list_ascii b)
    by (symmetry; apply string_of_list_ascii_of_string).
  assert (Hfix : Filepath.clean_bytes b = b).
  { destruct (string_dec (Filepath.Clean p) p) as [E|E]; [|by destruct Hclean].
    unfold Filepath.Clean in E. fold b in E.
    rewrite <- (list_ascii_of_string_of_list_ascii (Filepath.clean_bytes b)).
    by rewrite E. }
  assert (Hb_ne : b <> []).
  { intros E. apply Hne. apply bytes_inj. exact E. }
  assert (Hhead : Filepath.ends_element b = false).
  { destruct b as [|c b']; [done|]. simpl. unfold Filepath.IsPathSeparator.
    destruct (Ascii.eqb_spec c Filepath.Separator) as [->|]; [|done].
    destruct Hposix. exists (string_of_list_ascii b'). by rewrite Hp. }
  assert (Hdd : b <> dotdot_el).
  { intros E. apply Htrav. left. by rewrite Hp, E. }
  assert (Hup : forall rest, b <> dotdot_el ++ Filepath.Separator :: rest).
  { intros rest E. apply Htrav. right. exists (string_of_list_ascii rest).
    by rewrite Hp, E. }
  destruct (clean_fixed_point b Hb_ne Hhead Hfix Hdd Hup)
    as [E | (els & Hels_ne & Hels & E)].
  - left. by rewrite Hp, E.
  - right. exists (map string_of_list_ascii els).
    assert (Hmap : map list_ascii_of_string (map string_of_list_ascii els) = els).
    { rewrite map_map. rewrite <- (map_id els) at 2. apply map_ext.
      intros el. apply list_ascii_of_string_of_list_ascii. }
    repeat split; [by destruct els | | | exact Hdrive].
    + apply Forall_map. apply List.Forall_forall. intros el Hel.
      rewrite List.Forall_forall in Hels.
      apply plain_bytes_element; [by apply Hels|].
      intros Hin. apply Hback. unfold has_backslash. fold b. rewrite E.
      by apply (in_join _ el).
    + apply bytes_inj. fold b. by rewrite bytes_concat, Hmap.
Qed.

(** *** The rules in their order *)

Lemma validate_follows_rules (desc : Descriptor) :
  verdict (ResolveName desc) (ValidateNameAsPath desc).
Proof.
  unfold ValidateNameAsPath.
  destruct (ResolveName desc) as [p|]; [|constructor].
  destruct (String.eqb_spec p "") as [->|Hne]; [constructor|].
  unfold Filepath.ToSlash.
  destruct (String.eqb_spec (Filepath.Clean p) p) as [Hclean|Hdirty]; simpl;
    [|by constructor].
  assert (Hnd : ~ dirty p) by (intros H; by apply H).
  destruct (GoStrings.Contains p "\") eqn:Hback.
  { apply v_backslash; [done..|]. by apply Contains_byte. }
  assert (Hnb : ~ has_backslash p).
  { intros H. apply Contains_byte in H. congruence. }
  destruct (GoStrings.HasPrefix p "/") eqn:Hslash.
  { apply v_absolute; [done..|]. left. by apply prefix_iff. }
  assert (Hnp : ~ posix_absolute p).
  { intros H. apply prefix_iff in H. unfold GoStrings.HasPrefix in Hslash.
    congruence. }
  destruct (has_drive_prefix p) eqn:Hdrive.
  { apply v_absolute; [done..|]. right. by apply has_drive_prefix_iff. }
  assert (Hndr : ~ drive_absolute p).
  { intros H. apply has_drive_prefix_iff in H. congruence. }
  destruct (GoStrings.HasPrefix p "../" || String.eqb p "..") eqn:Htrav.
  { apply v_traversal; [done..|]. by apply traversal_iff. }
  apply v_accepted; [done..|].
  intros H. apply traversal_iff in H. congruence.
Qed.

(** The rules leave no choice: a name has one verdict. *)
Lemma verdict_unique (name : option string) (r r' : option error) :
  verdict name r -> verdict name r' -> r = r'.
Proof.
  intros H H'.
  destruct H; inversion H'; subst; try done; tauto.
Qed.

(** A name that is [..] or starts with [../] is never accepted, and the
    traversal error is the one it gets once it is clean and free of
    backslashes. *)
Lemma traversal_is_rejected (desc : Descriptor) (p : string) :
  ResolveName desc = Some p -> traversal p ->
  exists e,
    ValidateNameAsPath desc = Some e /\
    (~ dirty p -> ~ has_backslash p -> e = Wrap ErrPathTraversalDisallowed p).
Proof.
  intros Hp Ht. pose proof (validate_follows_rules desc) as Hv.
  rewrite Hp in Hv.
  inversion Hv as [| |? ? ?|? ? ? ?|? ? ? ? Habs|? ? ? ? ? ? ?|? ? ? ? ? ? ?];
    subst; try (eexists; split; [reflexivity|]; intros; done).
  - destruct Ht as [Ht|(rest & Ht)]; discriminate Ht.
  - exfalso. destruct Habs as [(r & ->)|(c & r & _ & ->)];
      destruct Ht as [Ht|(rest & Ht)]; discriminate Ht.
  - by exfalso.
Qed.

(** C3: the validator follows the rules in their order (no name or an
    empty one, then dirty, backslash, absolute, traversal), which fixes its
    answer on every descriptor; it accepts exactly the names that are [.]
    or a well-formed relative slash path; a name that is [..] or starts
    with [../] is always rejected, with the traversal error once the
    earlier rules are passed; and the names of the examples get the listed
    errors, with [a/b/c] accepted.  [filepath] is the build with
    separator [/]. *)
Theorem validate_name_as_path_rules :
  (forall desc, verdict (ResolveName desc) (ValidateNameAsPath desc)) /\
  (forall desc r, verdict (ResolveName desc) r -> ValidateNameAsPath desc = r) /\
  (forall desc,
     ValidateNameAsPath desc = None <->
     exists p, ResolveName desc = Some p /\ (p = "." \/ well_formed_relative p)) /\
  (forall desc p,
     ResolveName desc = Some p -> traversal p ->
     exists e,
       ValidateNameAsPath desc = Some e /\
       (~ dirty p -> ~ has_backslash p -> e = Wrap ErrPathTraversalDisallowed p)) /\
  (forall d,
     ValidateNameAsPath (Samples.unnamed d) = Some ErrNoName /\
     ValidateNameAsPath (Samples.named "" d) = Some ErrNoName /\
     Filepath.Clean "a/./b" = "a/b" /\
     ValidateNameAsPath (Samples.named "a/./b" d) = Some (Wrap ErrDirtyPath "a/./b") /\
     ValidateNameAsPath (Samples.named "a\b" d) =
       Some (Wrap ErrPathNotSlashSeparated "a\b") /\
     ValidateNameAsPath (Samples.named "/a/b" d) =
       Some (Wrap ErrAbsolutePathDisallowed "/a/b") /\
     ValidateNameAsPath (Samples.named "C:/a/b" d) =
       Some (Wrap ErrAbsolutePathDisallowed "C:/a/b") /\
     ValidateNameAsPath (Samples.named ".." d) =
       Some (Wrap ErrPathTraversalDisallowed "..") /\
     ValidateNameAsPath (Samples.named "../a" d) =
       Some (Wrap ErrPathTraversalDisallowed "../a") /\
     ValidateNameAsPath (Samples.named "a/b/c" d) = None).
Proof.
  split; [exact validate_follows_rules|].
  split.
  { intros desc r Hr.
    exact (verdict_unique _ _ _ (validate_follows_rules desc) Hr). }
  split.
  { intros desc. pose proof (validate_follows_rules desc) as Hv. split.
    - intros E. rewrite E in Hv. inversion Hv as [| | | | | |p H1 H2 H3 H4 H5 H6 Hp].
      exists p. split; [done|]. by apply passes_well_formed.
    - intros (p & Hp & Hshape).
      apply (verdict_unique _ _ _ Hv). rewrite Hp.
      destruct Hshape as [->|Hwf].
      + destruct dot_passes as (? & ? & ? & ? & ? & ?). by constructor.
      + destruct (well_formed_passes p Hwf) as (? & ? & ? & ? & ? & ?).
        by constructor. }
  split; [exact traversal_is_rejected|].
  intros d. unfold Samples.named, Samples.unnamed, ValidateNameAsPath, ResolveName.
  cbn [Annotations]. rewrite lookup_empty, !lookup_singleton_eq.
  repeat split; vm_compute; reflexivity.
Qed.

End ValidatorFacts.

(* ===================================================================== *)
(** ** More on the manifest delete command                               *)
(* ===================================================================== *)

Section DeletePaths.
Import ocispec manifest.

Ltac run_delete :=
  unfold run, execute, RunE, deleteManifest, call_Resolve,
    call_AskForConfirmation, call_Delete, call_Output, Println,
    bind, emit, ret; simpl.

(** No delete call among the events listed in the hypothesis. *)
Ltac no_delete_here :=
  let H := fresh in intros H; simpl in H; intuition discriminate.

(** The run up to the answer of the store, for a run that reaches it. *)
Ltac enter_store Hreach :=
  let Hrepo := fresh "Hrepo" in
  let Hne := fresh "Hne" in
  destruct Hreach as [Hrepo Hne];
  run_delete; rewrite Hrepo, (nonempty_eqb _ Hne); simpl.

Lemma Is_refl (e : error) : Is e e = true.
Proof. destruct e; cbn [Is]; by rewrite bool_decide_eq_true_2. Qed.

Lemma Is_wrapped (msg : string) (cause target : error) :
  Is cause target = true -> Is (wrapError msg cause) target = true.
Proof. intros H. simpl. rewrite H. apply orb_true_r. Qed.

(** X1: a confirmed deletion that the store carries out, without
    descriptor output, returns nil; its events are, in this order, the
    resolve call, the prompt, the delete call for the resolved descriptor
    on the same context, and the line "Deleted <reference>". *)
Theorem confirmed_delete_is_reported
    (env : Env) (ctx : Context) (opts : deleteOptions)
    (repo : remote_Repository) (desc : Descriptor) :
  let c := store_context repo ctx opts in
  reaches_store env opts repo ->
  Resolve env c (targetRef opts) = Ok desc ->
  AskForConfirmation env opts (prompt_for env desc) = Ok true ->
  Delete env c desc = None ->
  OutputDescriptor opts = false ->
  run (deleteManifest env ctx opts) =
    (None, [EvResolve c (targetRef opts); EvAsk (prompt_for env desc);
            EvDelete c desc; EvPrintln ("Deleted " +:+ targetRef opts)]).
Proof.
  intros c Hreach Hres Hask Hdel Hout. subst c. unfold store_context in *.
  enter_store Hreach. rewrite Hres. unfold prompt_for in Hask.
  rewrite Hask. simpl. rewrite Hdel, Hout. reflexivity.
Qed.

Lemma confirmed_delete_is_reported_witness :
  exists c p d,
    run (deleteManifest Samples.env_present [] (Samples.flags true false None)) =
      (None, [EvResolve c "localhost:5000/hello:v1"; EvAsk p; EvDelete c d;
              EvPrintln "Deleted localhost:5000/hello:v1"]).
Proof.
  do 3 eexists.
  apply (confirmed_delete_is_reported Samples.env_present []
           (Samples.flags true false None) Samples.hello_v1
           (Samples.unnamed Samples.sample_digest)); try reflexivity.
  split; [reflexivity | discriminate].
Defined.

(** X2: with descriptor output, a confirmed and successful deletion
    writes the marshalled descriptor that resolve returned and returns
    what the write returns; no "Deleted" line is printed. *)
Theorem confirmed_delete_outputs_descriptor
    (env : Env) (ctx : Context) (opts : deleteOptions)
    (repo : remote_Repository) (desc : Descriptor) (descJSON : string) :
  let c := store_context repo ctx opts in
  reaches_store env opts repo ->
  Resolve env c (targetRef opts) = Ok desc ->
  AskForConfirmation env opts (prompt_for env desc) = Ok true ->
  Delete env c desc = None ->
  OutputDescriptor opts = true ->
  Marshal env opts desc = Ok descJSON ->
  run (deleteManifest env ctx opts) =
    (Output env opts descJSON,
     [EvResolve c (targetRef opts); EvAsk (prompt_for env desc);
      EvDelete c desc; EvOutput descJSON]).
Proof.
  intros c Hreach Hres Hask Hdel Hout Hm. subst c. unfold store_context in *.
  enter_store Hreach. rewrite Hres. unfold prompt_for in Hask.
  rewrite Hask. simpl. rewrite Hdel, Hout, Hm. reflexivity.
Qed.

Lemma confirmed_delete_outputs_descriptor_witness :
  exists c p d,
    run (deleteManifest Samples.env_present [] (Samples.flags true true None)) =
      (None, [EvResolve c "localhost:5000/hello:v1"; EvAsk p; EvDelete c d;
              EvOutput "{json}"]).
Proof.
  do 3 eexists.
  apply (confirmed_delete_outputs_descriptor Samples.env_present []
           (Samples.flags true true None) Samples.hello_v1
           (Samples.unnamed Samples.sample_digest) "{json}"); try reflexivity.
  split; [reflexivity | discriminate].
Defined.

(** X3: when marshalling the descriptor fails, the error is returned after
    the delete call has been made: the manifest is deleted, and nothing is
    written or printed. *)
Theorem marshal_failure_comes_after_delete
    (env : Env) (ctx : Context) (opts : deleteOptions)
    (repo : remote_Repository) (desc : Descriptor) (err : error) :
  let c := store_context repo ctx opts in
  reaches_store env opts repo ->
  Resolve env c (targetRef opts) = Ok desc ->
  AskForConfirmation env opts (prompt_for env desc) = Ok true ->
  Delete env c desc = None ->
  OutputDescriptor opts = true ->
  Marshal env opts desc = Err err ->
  run (deleteManifest env ctx opts) =
    (Some err,
     [EvResolve c (targetRef opts); EvAsk (prompt_for env desc); EvDelete c desc]).
Proof.
  intros c Hreach Hres Hask Hdel Hout Hm. subst c. unfold store_context in *.
  enter_store Hreach. rewrite Hres. unfold prompt_for in Hask.
  rewrite Hask. simpl. rewrite Hdel, Hout, Hm. reflexivity.
Qed.

Lemma marshal_failure_comes_after_delete_witness :
  exists c p d,
    run (deleteManifest Samples.env_marshal_fails [] (Samples.flags true true None)) =
      (Some (errorString "json: unsupported value"),
       [EvResolve c "localhost:5000/hello:v1"; EvAsk p; EvDelete c d]).
Proof.
  do 3 eexists.
  apply (marshal_failure_comes_after_delete Samples.env_marshal_fails []
           (Samples.flags true true None) Samples.hello_v1
           (Samples.unnamed Samples.sample_digest)); try reflexivity.
  split; [reflexivity | discriminate].
Defined.

(** X4: a failing delete call ends the run with an error whose message is
    "failed to delete <reference>: " followed by the store's message and
    which wraps the store's error, so [errors.Is] still finds whatever the
    store's error matched; nothing is printed or written. *)
Theorem delete_failure_is_wrapped
    (env : Env) (ctx : Context) (opts : deleteOptions)
    (repo : remote_Repository) (desc : Descriptor) (err : error) :
  let c := store_context repo ctx opts in
  reaches_store env opts repo ->
  Resolve env c (targetRef opts) = Ok desc ->
  AskForConfirmation env opts (prompt_for env desc) = Ok true ->
  Delete env c desc = Some err ->
  exists e,
    run (deleteManifest env ctx opts) =
      (Some e, [EvResolve c (targetRef opts); EvAsk (prompt_for env desc);
                EvDelete c desc]) /\
    Error e = "failed to delete " +:+ targetRef opts +:+ ": " +:+ Error err /\
    Is e err = true /\
    forall target, Is err target = true -> Is e target = true.
Proof.
  intros c Hreach Hres Hask Hdel. subst c. unfold store_context in *.
  exists (wrapError ("failed to delete " +:+ targetRef opts +:+ ": " +:+ Error err) err).
  split; [|split; [reflexivity|split]].
  - enter_store Hreach. rewrite Hres. unfold prompt_for in Hask.
    rewrite Hask. simpl. rewrite Hdel. reflexivity.
  - apply Is_wrapped, Is_refl.
  - intros target. apply Is_wrapped.
Qed.

Lemma delete_failure_is_wrapped_witness :
  exists e,
    fst (run (deleteManifest Samples.env_delete_fails [] (Samples.flags true false None)))
      = Some e /\
    Error e = "failed to delete localhost:5000/hello:v1: DELETE: not found" /\
    Is e ErrNotFound = true.
Proof.
  destruct (delete_failure_is_wrapped Samples.env_delete_fails []
              (Samples.flags true false None) Samples.hello_v1
              (Samples.unnamed Samples.sample_digest)
              (wrapError "DELETE: not found" ErrNotFound))
    as (e & Hrun & Hmsg & _ & His); try reflexivity.
  - split; [reflexivity | discriminate].
  - exists e. split; [by rewrite Hrun|]. split; [exact Hmsg|].
    apply His. reflexivity.
Defined.

(** X5: an error of the confirmation prompt is returned as it is, after
    the resolve call and the prompt; the delete call is not made. *)
Theorem prompt_error_stops_the_run
    (env : Env) (ctx : Context) (opts : deleteOptions)
    (repo : remote_Repository) (desc : Descriptor) (err : error) :
  let c := store_context repo ctx opts in
  reaches_store env opts repo ->
  Resolve env c (targetRef opts) = Ok desc ->
  AskForConfirmation env opts (prompt_for env desc) = Err err ->
  run (deleteManifest env ctx opts) =
    (Some err, [EvResolve c (targetRef opts); EvAsk (prompt_for env desc)]).
Proof.
  intros c Hreach Hres Hask. subst c. unfold store_context in *.
  enter_store Hreach. rewrite Hres. unfold prompt_for in Hask.
  rewrite Hask. reflexivity.
Qed.

Lemma prompt_error_stops_the_run_witness :
  exists c p,
    run (deleteManifest Samples.env_prompt_fails [] (Samples.flags false false None)) =
      (Some (errorString "EOF"), [EvResolve c "localhost:5000/hello:v1"; EvAsk p]).
Proof.
  do 2 eexists.
  apply (prompt_error_stops_the_run Samples.env_prompt_fails []
           (Samples.flags false false None) Samples.hello_v1
           (Samples.unnamed Samples.sample_digest)); try reflexivity.
  split; [reflexivity | discriminate].
Defined.

(** X6: when the repository cannot be built from the target, its error is
    returned as it is and the run has no event. *)
Theorem repository_error_stops_the_run
    (env : Env) (ctx : Context) (opts : deleteOptions) (err : error) :
  NewRepository env opts = Err err ->
  run (deleteManifest env ctx opts) = (Some err, []).
Proof. intros H. run_delete. by rewrite H. Qed.

Lemma repository_error_stops_the_run_witness :
  run (deleteManifest Samples.env_no_repository [] (Samples.flags true false None)) =
    (Some (errorString "invalid reference: missing repository"), []).
Proof.
  exact (repository_error_stops_the_run Samples.env_no_repository []
           (Samples.flags true false None) _ eq_refl).
Defined.

(** X7: with descriptor output requested, a not-found from resolve is an
    error even under force: the run returns "<reference>: the specified
    manifest does not exist" and prints nothing. *)
Theorem missing_with_descriptor_is_an_error
    (env : Env) (ctx : Context) (opts : deleteOptions)
    (repo : remote_Repository) (err : error) :
  let c := store_context repo ctx opts in
  reaches_store env opts repo ->
  Resolve env c (targetRef opts) = Err err ->
  Is err ErrNotFound = true ->
  OutputDescriptor opts = true ->
  run (deleteManifest env ctx opts) =
    (Some (errorString
       (targetRef opts +:+ ": the specified manifest does not exist")),
     [EvResolve c (targetRef opts)]).
Proof.
  intros c Hreach Hres Hnf Hout. subst c. unfold store_context in *.
  enter_store Hreach. rewrite Hres, Hnf, Hout, andb_false_r. reflexivity.
Qed.

Lemma missing_with_descriptor_is_an_error_witness :
  exists c,
    run (deleteManifest Samples.env_absent [] (Samples.flags true true None)) =
      (Some (errorString
         "localhost:5000/hello:v1: the specified manifest does not exist"),
       [EvResolve c "localhost:5000/hello:v1"]).
Proof.
  eexists.
  apply (missing_with_descriptor_is_an_error Samples.env_absent []
           (Samples.flags true true None) Samples.hello_v1
           (wrapError "localhost:5000/hello:v1: not found" ErrNotFound));
    try reflexivity.
  split; [reflexivity | discriminate].
Defined.

(** X8: the store's delete is called only on a confirmed, resolved
    descriptor: if a delete call occurs in a run, it is the third event,
    after the resolve call that returned its descriptor and the prompt
    that was answered with yes, it uses the context of the resolve call,
    and no second delete call follows. *)
Theorem delete_needs_confirmation
    (env : Env) (ctx c : Context) (opts : deleteOptions) (d : Descriptor) :
  In (EvDelete c d) (snd (run (deleteManifest env ctx opts))) ->
  exists repo rest,
    reaches_store env opts repo /\
    c = store_context repo ctx opts /\
    Resolve env c (targetRef opts) = Ok d /\
    AskForConfirmation env opts (prompt_for env d) = Ok true /\
    snd (run (deleteManifest env ctx opts)) =
      EvResolve c (targetRef opts) :: EvAsk (prompt_for env d) ::
      EvDelete c d :: rest /\
    never_deletes rest.
Proof.
  unfold store_context, prompt_for, reaches_store. run_delete.
  destruct (NewRepository env opts) as [repo|e] eqn:Hrepo; [|intros []].
  destruct (String.eqb_spec (Reference (Repo_Reference repo)) "") as [|Hne];
    [intros []|].
  destruct (Resolve env _ _) as [desc|e] eqn:Hres; simpl.
  - destruct (AskForConfirmation env opts _) as [[|]|e] eqn:Hask; simpl;
      [| no_delete_here ..].
    assert (Hfound : forall rest,
      forallb (fun e => negb (is_Delete e)) rest = true ->
      In (EvDelete c d)
        (EvResolve (WithScopeHint repo ctx (hints opts)) (targetRef opts)
         :: EvAsk ("Are you sure you want to delete the manifest " +:+
                   Quote env (Digest_ desc) +:+
                   " and all tags associated with it?")
         :: EvDelete (WithScopeHint repo ctx (hints opts)) desc :: rest) ->
      c = WithScopeHint repo ctx (hints opts) /\ d = desc).
    { intros rest Hrest [H|[H|[H|H]]]; try discriminate H.
      - by injection H as <- <-.
      - rewrite forallb_forall in Hrest. specialize (Hrest _ H). discriminate. }
    destruct (Delete env _ desc) as [e|] eqn:Hdel; simpl.
    + intros Hin. destruct (Hfound [] eq_refl Hin) as [-> ->].
      exists repo, []. repeat split; try done. by apply never_deletes_decide.
    + destruct (OutputDescriptor opts); simpl.
      * destruct (Marshal env opts desc) as [json|e]; simpl; intros Hin.
        -- destruct (Hfound [EvOutput json] eq_refl Hin) as [-> ->].
           exists repo, [EvOutput json].
           repeat split; try done. by apply never_deletes_decide.
        -- destruct (Hfound [] eq_refl Hin) as [-> ->].
           exists repo, []. repeat split; try done. by apply never_deletes_decide.
      * intros Hin.
        destruct (Hfound [EvPrintln ("Deleted " +:+ targetRef opts)] eq_refl Hin)
          as [-> ->].
        exists repo, [EvPrintln ("Deleted " +:+ targetRef opts)].
        repeat split; try done. by apply never_deletes_decide.
  - destruct (Is e ErrNotFound); [|no_delete_here].
    destruct (Force opts && negb (OutputDescriptor opts)); simpl;
      no_delete_here.
Qed.

Lemma delete_needs_confirmation_witness :
  exists repo rest,
    AskForConfirmation Samples.env_present (Samples.flags true false None)
      (prompt_for Samples.env_present (Samples.unnamed Samples.sample_digest))
      = Ok true /\
    snd (run (deleteManifest Samples.env_present [] (Samples.flags true false None))) =
      EvResolve (store_context repo [] (Samples.flags true false None))
        "localhost:5000/hello:v1"
      :: EvAsk (prompt_for Samples.env_present (Samples.unnamed Samples.sample_digest))
      :: EvDelete (store_context repo [] (Samples.flags true false None))
           (Samples.unnamed Samples.sample_digest)
      :: rest.
Proof.
  destruct (delete_needs_confirmation Samples.env_present []
              (store_context Samples.hello_v1 [] (Samples.flags true false None))
              (Samples.flags true false None)
              (Samples.unnamed Samples.sample_digest))
    as (repo & rest & [Hrepo _] & Hc & _ & Hask & Htrace & _).
  - right. right. left. reflexivity.
  - injection Hrepo as <-. by exists Samples.hello_v1, rest.
Defined.

(** X9: a run that returns nil ended in one of four ways: the reference
    was missing under force without descriptor output and "Missing" was
    printed; the prompt was declined; the manifest was deleted and
    "Deleted" was printed; or it was deleted and its descriptor written.
    In particular a nil result is never reached without a resolve call. *)
Theorem nil_result_shapes
    (env : Env) (ctx : Context) (opts : deleteOptions) :
  fst (run (deleteManifest env ctx opts)) = None ->
  exists c,
    let t := snd (run (deleteManifest env ctx opts)) in
    let ref := targetRef opts in
    (t = [EvResolve c ref; EvPrintln ("Missing " +:+ ref)] /\
       Force opts = true /\ OutputDescriptor opts = false) \/
    (exists d,
       t = [EvResolve c ref; EvAsk (prompt_for env d)] /\
       AskForConfirmation env opts (prompt_for env d) = Ok false) \/
    (exists d,
       t = [EvResolve c ref; EvAsk (prompt_for env d); EvDelete c d;
            EvPrintln ("Deleted " +:+ ref)] /\
       OutputDescriptor opts = false) \/
    (exists d descJSON,
       t = [EvResolve c ref; EvAsk (prompt_for env d); EvDelete c d;
            EvOutput descJSON] /\
       OutputDescriptor opts = true /\ Marshal env opts d = Ok descJSON).
Proof.
  unfold prompt_for. run_delete.
  destruct (NewRepository env opts) as [repo|e]; [|discriminate].
  destruct (String.eqb _ ""); [discriminate|].
  destruct (Resolve env _ _) as [desc|e]; simpl.
  - destruct (AskForConfirmation env opts _) as [[|]|e] eqn:Hask; simpl;
      [| intros _; eexists; cbv zeta; right; left; by exists desc | discriminate].
    destruct (Delete env _ desc); simpl; [discriminate|].
    destruct (OutputDescriptor opts); simpl.
    + destruct (Marshal env opts desc) as [json|e] eqn:Hm; simpl; [|discriminate].
      intros _. eexists. cbv zeta. right. right. right. by exists desc, json.
    + intros _. eexists. cbv zeta. right. right. left. by exists desc.
  - destruct (Is e ErrNotFound); [|discriminate].
    destruct (Force opts); simpl; [|discriminate].
    destruct (OutputDescriptor opts); simpl; [discriminate|].
    intros _. eexists. cbv zeta. by left.
Qed.

Lemma nil_result_shapes_witness :
  exists c p,
    snd (run (deleteManifest Samples.env_present [] (Samples.flags false false None))) =
      [EvResolve c "localhost:5000/hello:v1"; EvAsk p].
Proof.
  destruct (nil_result_shapes Samples.env_present []
              (Samples.flags false false None) eq_refl)
    as (c & [[H _] | [(d & H & _) | [(d & H & _) | (d & j & H & _)]]]);
    try discriminate H.
  exists c, (prompt_for Samples.env_present d). exact H.
Defined.

(** X10: the command produces an event only when it was given exactly one
    argument, the force guard let it pass and [option.Parse] succeeded; the
    run is then [deleteManifest] on the options that Parse left, with the
    argument as target.  A wrong number of arguments or a Parse error ends
    the command before anything is sent or printed. *)
Theorem command_events_need_valid_invocation
    (env : Env) (ctx : Context) (opts : deleteOptions) (args : list string)
    (ev : event) :
  In ev (snd (run (execute env ctx opts args))) ->
  exists arg0 opts',
    args = [arg0] /\
    (OutputDescriptor opts = false \/ Force opts = true) /\
    Parse env opts = (opts', None) /\
    run (execute env ctx opts args) =
      run (deleteManifest env ctx (with_targetRef opts' arg0)) /\
    targetRef (with_targetRef opts' arg0) = arg0.
Proof.
  unfold run, execute, RunE, PreRunE.
  destruct args as [|arg0 [|arg1 args]]; [intros []| |intros []].
  destruct (OutputDescriptor opts) eqn:Hout, (Force opts) eqn:Hforce; simpl;
    try (intros []);
    destruct (Parse env opts) as [opts' [e|]] eqn:Hparse; try (intros []);
    intros _; exists arg0, opts'; repeat split; auto.
Qed.

Lemma command_events_need_valid_invocation_witness :
  exists arg0 opts',
    ["localhost:5000/hello:v1"] = [arg0] /\
    Parse Samples.env_present (Samples.flags true true None) = (opts', None).
Proof.
  destruct (command_events_need_valid_invocation Samples.env_present []
              (Samples.flags true true None) ["localhost:5000/hello:v1"]
              (EvOutput "{json}"))
    as (arg0 & opts' & Hargs & _ & Hparse & _).
  - right. right. right. left. reflexivity.
  - by exists arg0, opts'.
Defined.

End DeletePaths.


(* ===================================================================== *)
(** ** More on the push options and the status handler                   *)
(* ===================================================================== *)

Section PushOptionSequences.
Import ocispec oras.

(** X11: base-handler options accumulate in registration order: after
    [WithPushBaseHandler] is applied for each list of a sequence, the
    handler list is the old one followed by all supplied lists in order,
    and the other fields are as before. *)
Theorem base_handlers_accumulate_in_order
    (batches : list (list Handler)) (o : pushOpts) :
  let o' := apply_all (map WithPushBaseHandler batches) o in
  baseHandlers o' = baseHandlers o ++ concat batches /\
  config o' = config o /\
  configMediaType o' = configMediaType o /\
  configAnnotations o' = configAnnotations o /\
  manifest o' = manifest o /\
  manifestAnnotations o' = manifestAnnotations o /\
  manifestWriter o' = manifestWriter o /\
  validateName o' = validateName o /\
  artifact o' = artifact o.
Proof.
  revert o. induction batches as [|hs batches IH]; intros o.
  - simpl. rewrite List.app_nil_r. repeat split.
  - specialize (IH (fst (WithPushBaseHandler hs o))).
    cbv zeta in *. unfold apply_all in *. cbn [map fold_left concat].
    destruct IH as (H1 & H2 & H3 & H4 & H5 & H6 & H7 & H8 & H9).
    rewrite H1, H2, H3, H4, H5, H6, H7, H8, H9. simpl.
    rewrite <- List.app_assoc. repeat split.
Qed.

Lemma distinguished_keeps_handlers (opt : PushOpt) (o : pushOpts) :
  distinguished opt ->
  exists added, baseHandlers (fst (opt o)) = baseHandlers o ++ added.
Proof.
  intros []; simpl; try (exists []; by rewrite List.app_nil_r); by eexists.
Qed.

(** X12: no option of the file removes or reorders base handlers: after
    any sequence of them, the handlers registered before are still there,
    in the same order, at the front of the list. *)
Theorem options_never_drop_base_handlers (opts : list PushOpt) (o : pushOpts) :
  Forall distinguished opts ->
  exists added,
    baseHandlers (apply_all opts o) = baseHandlers o ++ added.
Proof.
  intros H. revert o. induction H as [|opt opts Hd _ IH]; intros o.
  - exists []. simpl. by rewrite List.app_nil_r.
  - destruct (distinguished_keeps_handlers opt o Hd) as (a1 & E1).
    destruct (IH (fst (opt o))) as (a2 & E2).
    exists (a1 ++ a2). unfold apply_all in *. cbn [fold_left].
    by rewrite E2, E1, <- List.app_assoc.
Qed.

Lemma options_never_drop_base_handlers_witness :
  exists added,
    baseHandlers
      (apply_all Samples.one_of_each
         (fst (WithPushStatusTrack (Some 7) pushOptsDefaults))) =
    [pushStatusTrack (Some 7)] ++ added.
Proof.
  apply (options_never_drop_base_handlers Samples.one_of_each
           (fst (WithPushStatusTrack (Some 7) pushOptsDefaults))).
  repeat constructor.
Defined.

End PushOptionSequences.

Section StatusHandler.
Import ocispec oras.

Lemma string_length_app (a b : string) :
  String.length (a +:+ b) = String.length a + String.length b.
Proof.
  induction a as [|c a IH]; [reflexivity|].
  rewrite append_cons. simpl. by rewrite IH.
Qed.

Lemma substring_all (s : string) : String.substring 0 (String.length s) s = s.
Proof. induction s as [|c s IH]; simpl; [reflexivity | by rewrite IH]. Qed.

Lemma substring_prefix (a b : string) :
  String.substring 0 (String.length a) (a +:+ b) = a.
Proof.
  induction a as [|c a IH].
  - rewrite append_empty_l. by destruct b.
  - rewrite append_cons. simpl. by rewrite IH.
Qed.

Lemma substring_skip (a b : string) (n : nat) :
  String.substring (String.length a) n (a +:+ b) = String.substring 0 n b.
Proof.
  induction a as [|c a IH]; [reflexivity|].
  rewrite append_cons. simpl. exact IH.
Qed.

Lemma substring_length (s : string) (n : nat) :
  n <= String.length s -> String.length (String.substring 0 n s) = n.
Proof.
  revert s. induction n as [|n IH]; intros s Hn.
  - by destruct s.
  - destruct s as [|c s]; simpl in *; [lia|]. rewrite IH; [done | lia].
Qed.

Lemma slice_from_app (a b : string) :
  GoStrings.slice_from (a +:+ b) (String.length a) = b.
Proof.
  unfold GoStrings.slice_from.
  rewrite string_length_app, substring_skip.
  replace (String.length a + String.length b - String.length a)
    with (String.length b) by lia.
  apply substring_all.
Qed.

Lemma slice_to_app (a b : string) :
  GoStrings.slice_to (a +:+ b) (String.length a) = Some a.
Proof.
  rewrite slice_to_in_range by (rewrite string_length_app; lia).
  by rewrite substring_prefix.
Qed.

Lemma IndexByte_first (a rest : string) (c : ascii) :
  ~ In c (list_ascii_of_string a) ->
  GoStrings.IndexByte (a +:+ String c rest) c = Some (String.length a).
Proof.
  induction a as [|d a IH]; intros Hnot.
  - rewrite append_empty_l. simpl. by rewrite Ascii.eqb_refl.
  - rewrite append_cons. simpl in *.
    destruct (Ascii.eqb_spec d c) as [->|_]; [by destruct Hnot; left|].
    rewrite IH; [done|]. intros H. apply Hnot. by right.
Qed.

(** A digest written as algorithm, colon, encoded part. *)
Lemma Encoded_of_parts (alg enc : string) :
  ~ In ":"%char (list_ascii_of_string alg) ->
  Encoded (alg +:+ ":" +:+ enc) = inr enc.
Proof.
  intros Hnot. unfold Encoded.
  change (":" +:+ enc) with (String ":"%char enc).
  rewrite IndexByte_first by done. f_equal.
  change (alg +:+ String ":"%char enc) with (alg +:+ ":" +:+ enc).
  rewrite <- append_assoc.
  replace (S (String.length alg)) with (String.length (alg +:+ ":"))
    by (rewrite string_length_app; simpl; lia).
  apply slice_from_app.
Qed.

(** X13: the status handler returns, rather than panics, exactly when the
    descriptor has no name, or its digest has a colon followed by at least
    12 bytes and the writer is not nil. *)
Theorem status_track_returns_iff
    (writer : Writer) (desc : Descriptor) (sinks : Sinks) :
  returns (pushStatusTrack writer desc sinks) <->
  ResolveName desc = None \/
  exists enc n,
    Encoded (Digest_ desc) = inr enc /\ 12 <= String.length enc /\
    writer = Some n.
Proof.
  unfold pushStatusTrack.
  destruct (ResolveName desc) as [name|]; [|simpl; tauto].
  destruct (Encoded (Digest_ desc)) as [p|enc].
  { simpl. split; [done|]. by intros [|(? & ? & ? & _)]. }
  destruct (Nat.le_gt_cases 12 (String.length enc)) as [Hlen|Hlen].
  - rewrite slice_to_in_range by done.
    destruct writer as [n|]; simpl.
    + split; [|done]. intros _. right. by exists enc, n.
    + split; [done|]. by intros [|(? & ? & _ & _ & ?)].
  - rewrite slice_to_out_of_range by done. simpl.
    split; [done|]. intros [|(enc' & n & E & Hlen' & _)]; [done|].
    injection E as <-. lia.
Qed.

(** X14: whenever the status handler returns, it returns no children and
    no error; every sink other than its own writer's is untouched; for a
    descriptor without a name nothing is written at all, and for a named
    one its own sink is the old content followed by one line made of
    "Uploading", 12 bytes and the name. *)
Theorem status_track_only_appends
    (writer : Writer) (desc : Descriptor) (sinks sinks' : Sinks)
    (children : list Descriptor) (err : option error) :
  pushStatusTrack writer desc sinks = Returned children err sinks' ->
  children = [] /\ err = None /\
  (forall n, writer <> Some n -> sinks' !! n = sinks !! n) /\
  (ResolveName desc = None -> sinks' = sinks) /\
  (forall name, ResolveName desc = Some name ->
     exists n short,
       writer = Some n /\ String.length short = 12 /\
       sinks' !! n =
         Some (default "" (sinks !! n) +:+ sprintln ["Uploading"; short; name])).
Proof.
  unfold pushStatusTrack.
  destruct (ResolveName desc) as [name|].
  - destruct (Encoded (Digest_ desc)) as [p|enc]; [discriminate|].
    destruct (Nat.le_gt_cases 12 (String.length enc)) as [Hlen|Hlen];
      [|by rewrite slice_to_out_of_range].
    rewrite slice_to_in_range by done.
    destruct writer as [w|]; simpl; [|discriminate].
    intros H. injection H as <- <- <-.
    repeat split; [| done |].
    + intros n Hn. apply lookup_insert_ne. congruence.
    + intros name' E. injection E as <-.
      exists w, (String.substring 0 12 enc).
      repeat split; [by apply substring_length | apply lookup_insert_eq].
  - intros H. injection H as <- <- <-. repeat split; done.
Qed.

Lemma status_track_only_appends_witness :
  exists n short,
    Some 1 = Some n /\ String.length short = 12 /\
    ({[ 1 := "Uploading 99e4703fbf30 hello.txt" +:+ newline ]} : Sinks) !! n =
      Some (default "" ((∅ : Sinks) !! n) +:+
            sprintln ["Uploading"; short; "hello.txt"]).
Proof.
  destruct (status_track_only_appends (Some 1)
              (Samples.named "hello.txt" Samples.sample_digest) ∅
              {[ 1 := "Uploading 99e4703fbf30 hello.txt" +:+ newline ]} [] None)
    as (_ & _ & _ & _ & H).
  - vm_compute. reflexivity.
  - apply (H "hello.txt"). reflexivity.
Defined.

(** X15: for a named descriptor whose digest is an algorithm without
    colon, a colon, and an encoded part that starts with the 12 bytes
    [short], the handler on writer [w] appends the line
    "Uploading <short> <name>" to that writer's sink and returns no
    children and no error. *)
Theorem status_track_prints_short_digest
    (w : nat) (desc : Descriptor) (sinks : Sinks) (name alg short rest : string) :
  ResolveName desc = Some name ->
  Digest_ desc = alg +:+ ":" +:+ short +:+ rest ->
  ~ In ":"%char (list_ascii_of_string alg) ->
  String.length short = 12 ->
  pushStatusTrack (Some w) desc sinks =
    Returned [] None
      (<[w := default "" (sinks !! w) +:+
              "Uploading " +:+ short +:+ " " +:+ name +:+ newline]> sinks).
Proof.
  intros Hname Hdigest Halg Hshort. unfold pushStatusTrack.
  rewrite Hname, Hdigest, Encoded_of_parts by done.
  rewrite <- Hshort, slice_to_app. simpl. do 2 f_equal.
  unfold sprintln. cbn [sprint].
  change "Uploading " with ("Uploading" +:+ " ").
  by rewrite !append_assoc.
Qed.

Lemma status_track_prints_short_digest_witness :
  pushStatusTrack (Some 1) (Samples.named "hello.txt" Samples.sample_digest) ∅ =
    Returned [] None
      (<[1 := default "" ((∅ : Sinks) !! 1) +:+
              "Uploading " +:+ "99e4703fbf30" +:+ " " +:+ "hello.txt" +:+ newline]> ∅).
Proof.
  apply (status_track_prints_short_digest 1
           (Samples.named "hello.txt" Samples.sample_digest) ∅ "hello.txt"
           "sha256" "99e4703fbf30"
           "916f549cd6bfa9cdbab614b5392fbe64fdee971359a77073cdf9").
  - reflexivity.
  - reflexivity.
  - simpl. intros H. repeat (destruct H as [H|H]; [discriminate H|]). exact H.
  - reflexivity.
Defined.

End StatusHandler.

(* ===================================================================== *)
(** ** More on the path validator                                        *)
(* ===================================================================== *)

Section ValidatorConsequences.
Import ocispec oras.

Lemma accepted_shape (desc : Descriptor) (p : string) :
  ResolveName desc = Some p -> ValidateNameAsPath desc = None ->
  p = "." \/ well_formed_relative p.
Proof.
  intros Hp E. pose proof (validate_follows_rules desc) as Hv.
  rewrite Hp, E in Hv. inversion Hv; subst. by apply passes_well_formed.
Qed.

Lemma shape_accepted (desc : Descriptor) (p : string) :
  ResolveName desc = Some p -> p = "." \/ well_formed_relative p ->
  ValidateNameAsPath desc = None.
Proof.
  intros Hp Hshape.
  apply (verdict_unique _ _ _ (validate_follows_rules desc)). rewrite Hp.
  destruct Hshape as [->|Hwf].
  - destruct dot_passes as (? & ? & ? & ? & ? & ?). by constructor.
  - destruct (well_formed_passes p Hwf) as (? & ? & ? & ? & ? & ?).
    by constructor.
Qed.

(** X16: a bare file name is accepted: a name without slash and backslash
    passes the validator unless it is empty or [..]. *)
Theorem bare_file_name_is_accepted (desc : Descriptor) (p : string) :
  ResolveName desc = Some p ->
  p <> "" -> p <> ".." ->
  (forall c, In c (list_ascii_of_string p) -> c <> "/"%char /\ c <> "\"%char) ->
  ValidateNameAsPath desc = None.
Proof.
  intros Hp Hne Hdd Hchars. apply (shape_accepted desc p Hp).
  destruct (string_dec p ".") as [->|Hdot]; [by left|]. right.
  exists [p]. split; [done|]. split; [|split; [reflexivity|]].
  - constructor; [|constructor].
    split; [done|]. split; [done|]. split; [done | exact Hchars].
  - intros (c & rest & _ & E).
    destruct (Hchars "/"%char) as [H _]; [|done].
    rewrite E. simpl. right. right. by left.
Qed.

Lemma bare_file_name_is_accepted_witness :
  ValidateNameAsPath (Samples.named "C:" Samples.sample_digest) = None.
Proof.
  apply (bare_file_name_is_accepted _ "C:"); try done.
  intros c [<-|[<-|[]]]; done.
Defined.

(** X17: an error of the validator tells the rule: its cause is one of
    the five error values; it is [ErrNoName] itself exactly when the name
    is missing or empty; otherwise it is the cause wrapped with the
    rejected name as message. *)
Theorem validation_error_names_the_rule (desc : Descriptor) (e : error) :
  ValidateNameAsPath desc = Some e ->
  In (Cause e) [ErrNoName; ErrDirtyPath; ErrPathNotSlashSeparated;
                ErrAbsolutePathDisallowed; ErrPathTraversalDisallowed] /\
  (e = ErrNoName <-> ResolveName desc = None \/ ResolveName desc = Some "") /\
  (e <> ErrNoName ->
     exists p, ResolveName desc = Some p /\ p <> "" /\ e = Wrap (Cause e) p).
Proof.
  intros E. pose proof (validate_follows_rules desc) as Hv. rewrite E in Hv.
  inversion Hv as [Hn|Hn|p ? ? Hn|p ? ? ? Hn|p ? ? ? ? Hn|p ? ? ? ? ? ? Hn|];
    subst; simpl.
  - split; [by left|]. split; [by split; [left|]|done].
  - split; [by left|]. split; [by split; [right|]|done].
  - split; [by right; left|]. split; [split; [done|]|by exists p].
    intros [Hx|Hx]; [discriminate Hx | by injection Hx].
  - split; [by right; right; left|]. split; [split; [done|]|by exists p].
    intros [Hx|Hx]; [discriminate Hx | by injection Hx].
  - split; [by right; right; right; left|]. split; [split; [done|]|by exists p].
    intros [Hx|Hx]; [discriminate Hx | by injection Hx].
  - split; [by right; right; right; right; left|].
    split; [split; [done|]|by exists p].
    intros [Hx|Hx]; [discriminate Hx | by injection Hx].
Qed.

Lemma validation_error_names_the_rule_witness :
  Cause (Wrap ErrDirtyPath "a//b") = ErrDirtyPath /\
  exists p,
    ResolveName (Samples.named "a//b" Samples.sample_digest) = Some p /\
    p <> "" /\ Wrap ErrDirtyPath "a//b" = Wrap (Cause (Wrap ErrDirtyPath "a//b")) p.
Proof.
  split; [reflexivity|].
  apply (validation_error_names_the_rule
           (Samples.named "a//b" Samples.sample_digest) (Wrap ErrDirtyPath "a//b")).
  - vm_compute. reflexivity.
  - discriminate.
Defined.

End ValidatorConsequences.

Section ElementsOfAcceptedNames.
Import ocispec oras Filepath.

(** A slash inside a joined path separates two of its elements. *)
Lemma join_split (els : list (list ascii)) :
  Forall sepfree els ->
  forall a b,
    join els = a ++ Separator :: b ->
    exists l1 l2,
      els = l1 ++ l2 /\ l1 <> [] /\ l2 <> [] /\ join l1 = a /\ join l2 = b.
Proof.
  induction 1 as [|el els Hel Hels IH]; intros a b E.
  - by destruct a.
  - destruct (copy_element_split a) as (a1 & a' & _ & -> & Ha1 & Ha').
    destruct (join_first el els) as (tail & Et & Htail).
    rewrite Et, <- List.app_assoc in E.
    apply element_unique in E as [-> ->]; try done;
      [|destruct a'; [reflexivity | exact Ha']].
    destruct els as [|b0 els].
    { simpl in Et. apply (f_equal length) in Et.
      rewrite !length_app in Et. simpl in Et. lia. }
    rewrite (join_cons a1 (b0 :: els)) in Et by done.
    apply app_inv_head in Et.
    destruct a' as [|c a''].
    + injection Et as Et. exists [a1], (b0 :: els).
      rewrite List.app_nil_r. by repeat split.
    + simpl in Ha'. apply Ascii.eqb_eq in Ha'. subst c.
      injection Et as Et.
      destruct (IH a'' b Et) as (l1 & l2 & E12 & Hl1 & Hl2 & <- & <-).
      exists (a1 :: l1), l2. rewrite E12.
      repeat split; try done. by rewrite join_cons.
Qed.

Lemma plain_sepfree (els : list (list ascii)) :
  Forall plain els -> Forall sepfree els.
Proof. intros H. eapply Forall_impl; [exact H|]. by intros el (_ & ? & _). Qed.

(** A joined path of real elements does not start with a [..] element. *)
Lemma join_not_dotdot (els : list (list ascii)) (tail : list ascii) :
  Forall plain els -> ends_element tail = true ->
  join els <> dotdot_el ++ tail.
Proof.
  intros Hels Htail E. destruct els as [|el els]; [done|].
  inversion Hels as [|? ? (_ & Hsf & _ & Hdd) _]; subst.
  destruct (join_first el els) as (tail' & E' & Htail').
  rewrite E' in E. apply element_unique in E as [-> _]; try done.
  repeat constructor.
Qed.

Lemma well_formed_bytes (p : string) :
  well_formed_relative p ->
  exists bels,
    bels <> [] /\ Forall plain bels /\ list_ascii_of_string p = join bels.
Proof.
  intros (els & Hne & Hels & -> & _).
  exists (map list_ascii_of_string els). split; [by destruct els|].
  split; [|apply bytes_concat].
  apply Forall_map. eapply Forall_impl; [exact Hels|].
  intros s Hs. by apply plain_element_bytes.
Qed.

(** X18: [..] never occurs as an element of an accepted name, at the
    start, in the middle or at the end: an accepted name is not of the
    form [pre ++ ".." ++ post] with [pre] empty or ending in a slash and
    [post] empty or starting with a slash. *)
Theorem accepted_has_no_dotdot_element
    (desc : Descriptor) (p pre post : string) :
  ResolveName desc = Some p ->
  ValidateNameAsPath desc = None ->
  (pre = "" \/ exists r, pre = r +:+ "/") ->
  (post = "" \/ exists r, post = "/" +:+ r) ->
  p <> pre +:+ ".." +:+ post.
Proof.
  intros Hp Hacc Hpre Hpost E.
  assert (Htail : ends_element (list_ascii_of_string post) = true).
  { destruct Hpost as [->|(r & ->)]; reflexivity. }
  destruct (accepted_shape desc p Hp Hacc) as [->|Hwf].
  { destruct Hpre as [->|(r & ->)].
    - rewrite append_empty_l in E. discriminate E.
    - apply (f_equal list_ascii_of_string) in E.
      rewrite !bytes_app in E. simpl in E.
      destruct (list_ascii_of_string r) as [|c [|c' l]]; discriminate E. }
  destruct (well_formed_bytes p Hwf) as (bels & Hne & Hplain & Hbytes).
  rewrite E, !bytes_app in Hbytes.
  change (list_ascii_of_string "..") with dotdot_el in Hbytes.
  destruct Hpre as [->|(r & ->)].
  - simpl in Hbytes. symmetry in Hbytes.
    by apply (join_not_dotdot bels _ Hplain Htail).
  - rewrite bytes_app, <- List.app_assoc in Hbytes. simpl in Hbytes.
    symmetry in Hbytes.
    destruct (join_split bels (plain_sepfree _ Hplain) _ _ Hbytes)
      as (l1 & l2 & -> & _ & _ & _ & E2).
    apply Forall_app in Hplain as [_ Hl2].
    by apply (join_not_dotdot l2 (list_ascii_of_string post) Hl2 Htail).
Qed.

Lemma accepted_has_no_dotdot_element_witness :
  "a/b/c" <> "a/" +:+ ".." +:+ "/c".
Proof.
  apply (accepted_has_no_dotdot_element
           (Samples.named "a/b/c" Samples.sample_digest) "a/b/c" "a/" "/c").
  - reflexivity.
  - vm_compute. reflexivity.
  - right. by exists "a".
  - right. by exists "c".
Defined.

Lemma bytes_of_strings (els : list (list ascii)) :
  map list_ascii_of_string (map string_of_list_ascii els) = els.
Proof.
  rewrite map_map. rewrite <- (map_id els) at 2. apply map_ext.
  intros el. apply list_ascii_of_string_of_list_ascii.
Qed.

(** X19: the directory part of an accepted name is accepted: if a name
    [a/b] passes the validator, so does [a]. *)
Theorem parent_of_accepted_is_accepted
    (desc parent : Descriptor) (a b : string) :
  ResolveName desc = Some (a +:+ "/" +:+ b) ->
  ValidateNameAsPath desc = None ->
  ResolveName parent = Some a ->
  ValidateNameAsPath parent = None.
Proof.
  intros Hp Hacc Ha.
  pose proof (validate_follows_rules desc) as Hv. rewrite Hp, Hacc in Hv.
  inversion Hv as [| | | | | |p Hne Hclean Hback Hposix Hdrive Htrav]; subst.
  destruct (passes_well_formed _ Hne Hclean Hback Hposix Hdrive Htrav)
    as [E|Hwf].
  { apply (f_equal list_ascii_of_string) in E. rewrite !bytes_app in E.
    simpl in E. destruct (list_ascii_of_string a) as [|c [|c' l]]; discriminate E. }
  destruct (well_formed_bytes _ Hwf) as (bels & _ & Hplain & Hbytes).
  rewrite !bytes_app in Hbytes. simpl in Hbytes. symmetry in Hbytes.
  destruct (join_split bels (plain_sepfree _ Hplain) _ _ Hbytes)
    as (l1 & l2 & -> & Hl1 & _ & E1 & _).
  apply Forall_app in Hplain as [Hplain1 _].
  apply (shape_accepted parent a Ha). right.
  exists (map string_of_list_ascii l1).
  split; [by destruct l1|]. split; [|split].
  - apply Forall_map. apply List.Forall_forall. intros el Hel.
    rewrite List.Forall_forall in Hplain1.
    apply plain_bytes_element; [by apply Hplain1|].
    intros Hin. apply Hback. unfold has_backslash.
    rewrite bytes_app. apply in_or_app. left.
    rewrite <- E1. by apply (in_join _ el).
  - apply bytes_inj. by rewrite bytes_concat, bytes_of_strings.
  - intros (c & rest & Hc & ->). apply Hdrive.
    exists c, (rest +:+ "/" +:+ b). split; [exact Hc|].
    rewrite append_cons. f_equal.
Qed.

Lemma parent_of_accepted_is_accepted_witness :
  ValidateNameAsPath (Samples.named "usr/share" Samples.sample_digest) = None.
Proof.
  apply (parent_of_accepted_is_accepted
           (Samples.named "usr/share/doc.txt" Samples.sample_digest)
           (Samples.named "usr/share" Samples.sample_digest)
           "usr/share" "doc.txt").
  - reflexivity.
  - vm_compute. reflexivity.
  - reflexivity.
Defined.

End ElementsOfAcceptedNames.

Section Counting.
Import ocispec oras manifest.

(** X20: a run never retries: the store's resolve, the prompt, the
    store's delete and the report (a printed line or the written
    descriptor) each happen at most once, so a run has at most four
    events. *)
Theorem run_never_retries (env : Env) (ctx : Context) (opts : deleteOptions) :
  let t := snd (run (deleteManifest env ctx opts)) in
  count_events is_Resolve t <= 1 /\
  count_events is_Ask t <= 1 /\
  count_events is_Delete t <= 1 /\
  count_events is_report t <= 1 /\
  length t <= 4.
Proof.
  unfold run, deleteManifest, call_Resolve, call_AskForConfirmation,
    call_Delete, call_Output, Println, bind, emit, ret, count_events; simpl.
  destruct (NewRepository env opts) as [repo|e]; simpl; [|repeat split; lia].
  destruct (String.eqb _ ""); simpl; [repeat split; lia|].
  destruct (Resolve env _ _) as [desc|e]; simpl.
  - destruct (AskForConfirmation env opts _) as [[|]|e]; simpl;
      [| repeat split; lia ..].
    destruct (Delete env _ desc); simpl; [repeat split; lia|].
    destruct (OutputDescriptor opts); simpl; [|repeat split; lia].
    destruct (Marshal env opts desc); simpl; repeat split; lia.
  - destruct (Is e ErrNotFound); [|repeat split; simpl; lia].
    destruct (Force opts && negb (OutputDescriptor opts)); simpl;
      repeat split; lia.
Qed.

(** X21: name validation stays as configured unless it is replaced on
    purpose: after any sequence of options of the file other than
    [WithNameValidation] the validator is unchanged, so a configuration
    built from the defaults still validates with [ValidateNameAsPath]. *)
Theorem validator_survives_other_options (opts : list PushOpt) (o : pushOpts) :
  Forall leaves_validator opts ->
  validateName (apply_all opts o) = validateName o /\
  validateName (apply_all opts pushOptsDefaults) = Some ValidateNameAsPath.
Proof.
  intros H.
  assert (Hkeep : forall o, validateName (apply_all opts o) = validateName o).
  { clear o. induction H as [|opt opts Hopt _ IH]; intros o; [reflexivity|].
    unfold apply_all in *. cbn [fold_left]. rewrite IH. by destruct Hopt. }
  split; [apply Hkeep | by rewrite Hkeep].
Qed.

Lemma validator_survives_other_options_witness :
  validateName
    (apply_all [WithConfigMediaType "application/json";
                WithPushStatusTrack (Some 1);
                AsArtifact "sbom" (Samples.unnamed Samples.sample_digest)]
       pushOptsDefaults) = Some ValidateNameAsPath.
Proof.
  apply (validator_survives_other_options
           [WithConfigMediaType "application/json";
            WithPushStatusTrack (Some 1);
            AsArtifact "sbom" (Samples.unnamed Samples.sample_digest)]
           pushOptsDefaults).
  repeat constructor.
Defined.

End Counting.
